(** * hierArc: the per-lens hyper-parameter likelihood

    A shallow embedding of [hierarc/Likelihood/hierarchy_likelihood.py]
    (class [LensLikelihood]) and the properties of its marginalisation
    engine.

    - numpy's [float64] is Rocq's primitive binary64 [float]; comparisons
      and arithmetic are the IEEE 754 ones.
    - Python dictionaries of keyword arguments are [gmap string float].
    - numpy's global random generator, the parent classes' methods and the
      cosmology object are collaborators that live outside the file; they
      are the fields of the class [Externals].  A call to one of them
      threads the generator state and is recorded, in order, in a trace. *)

From Stdlib Require Import ZArith List Bool Floats Lia.
From stdpp Require Import gmap strings list.

Local Open Scope string_scope.
Local Open Scope list_scope.

(** ** Numbers *)

Module Np.

(** [np.isfinite]: neither NaN nor an infinity. *)
Definition isfinite (x : float) : bool := is_finite x.

(** [-np.inf] *)
Definition neg_inf : float := neg_infinity.

(** A Python [int] used in float arithmetic is converted to the nearest
    binary64 value. *)
Definition of_int (n : Z) : float :=
  SF2Prim (binary_normalize prec emax n 0 false).

End Np.

(** A binary64 value, seen through its specification, that is strictly
    positive: a positive finite number or plus infinity. *)
Definition SF_positive (x : spec_float) : Prop :=
  match x with
  | S754_finite false _ _ | S754_infinity false => True
  | _ => False
  end.

(** ** A reference [exp] and [log]

    numpy's [exp] and [log] are fields of [Externals].  To evaluate the
    model on concrete inputs this module gives one implementation in
    binary64 arithmetic (argument reduction by [ln 2], then a Taylor
    polynomial), exact on the special values and within a few units in the
    last place elsewhere. *)

Module Libm.
Local Open Scope float_scope.

Definition ln2_hi : float := 0x1.62e42feep-1.
Definition ln2_lo : float := 0x1.a39ef35793c76p-33.
Definition inv_ln2 : float := 0x1.71547652b82fep+0.

(** Nearest integer, for [|y| < 2^51]. *)
Definition rint (y : float) : float := (y + 0x1.8p52) - 0x1.8p52.

(** The integer an integral float stands for. *)
Definition int_of (k : float) : Z :=
  match Prim2SF k with
  | S754_finite s m e =>
      let v := Z.shiftl (Zpos m) e in if s then Z.opp v else v
  | _ => 0%Z
  end.

Fixpoint exp_poly (ns : list float) (r : float) : float :=
  match ns with
  | [] => 1
  | n :: ns' => 1 + r / n * exp_poly ns' r
  end.

(** Above [ln(max double)] the result is [inf]; below
    [ln(min subnormal / 2)] it is [0]. *)
Definition exp (x : float) : float :=
  if is_nan x then nan
  else if 0x1.62e42fefa39efp+9 <? x then infinity
  else if x <? -0x1.74910d52d3051p+9 then 0
  else
    let k := rint (x * inv_ln2) in
    let r := (x - k * ln2_hi) - k * ln2_lo in
    Z.ldexp (exp_poly [1;2;3;4;5;6;7;8;9;10;11;12;13] r) (int_of k).

Fixpoint atanh_poly (ns : list float) (s2 : float) : float :=
  match ns with
  | [] => 0
  | n :: ns' => 1 / n + s2 * atanh_poly ns' s2
  end.

Definition log (x : float) : float :=
  if is_nan x then nan
  else if x <? 0 then nan
  else if x =? 0 then neg_infinity
  else if x =? infinity then infinity
  else
    let (m, e) := Z.frexp x in
    let (m, e) :=
      if m <? 0x1.6a09e667f3bcdp-1 then (2 * m, (e - 1)%Z) else (m, e) in
    let s := (m - 1) / (m + 1) in
    let k := if (e <? 0)%Z then - of_uint63 (Uint63.of_Z (- e))
             else of_uint63 (Uint63.of_Z e) in
    k * ln2_hi
    + (2 * s * atanh_poly [1;3;5;7;9;11;13;15;17;19;21;23;25] (s * s)
       + k * ln2_lo).

End Libm.

(** ** Exceptions and the evaluation monad *)

Inductive exn : Type :=
| TypeError        (* unexpected keyword argument *)
| AttributeError   (* attribute that was never set *)
| ValueError       (* raised by a collaborator *)
| OtherError.      (* anything else a collaborator raises *)

Inductive res (A : Type) : Type :=
| Ok (a : A)
| Raise (e : exn).
Arguments Ok {A} a.
Arguments Raise {A} e.

Definition res_map {A B : Type} (f : A -> B) (r : res A) : res B :=
  match r with
  | Ok a => Ok (f a)
  | Raise e => Raise e
  end.

(** Keyword-argument dictionaries. *)
Abbreviation kwargs := (gmap string float).

(** [d.get(k, default)] *)
Definition dict_get (k : string) (dflt : float) (d : kwargs) : float :=
  default dflt (d !! k).

(** [d.pop(k, None)]: the value (or [None]) and the dictionary without [k].
    The dictionary object is the caller's: the second component is what the
    caller holds afterwards. *)
Definition dict_pop (k : string) (d : kwargs) : option float * kwargs :=
  (d !! k, delete k d).

(** ** Collaborators *)

Class Externals : Type := {
  rng_state : Type;     (* state of numpy's global generator *)
  aniso : Type;         (* a draw of the anisotropy parameters *)
  scaling : Type;       (* an anisotropy scaling *)
  sampler : Type;       (* a [PDFSampling] instance *)
  likelihood_config : Type;  (* what the parents' constructors are given *)
  (* numpy *)
  np_exp : float -> float;
  np_log : float -> float;
  np_random_normal : float -> float -> rng_state -> res float * rng_state;
  (* hierarc.Util.distribution_util.PDFSampling *)
  PDFSampling : list float -> list float -> res sampler;  (* bin_edges, pdf_array *)
  draw_one : sampler -> rng_state -> res float * rng_state;
  (* AnisotropyScalingIFU *)
  AnisotropyScalingIFU_init :
    likelihood_config -> option (list (list float)) -> res unit;
  draw_anisotropy : kwargs -> rng_state -> res aniso * rng_state;
  ani_scaling : aniso -> res scaling;
  (* TransformedCosmography *)
  TransformedCosmography_init : float -> float -> res unit;
  displace_prediction :
    float -> float -> float -> float -> float -> res (float * float);
     (* ddt, dd, gamma_ppn, lambda_mst, kappa_ext *)
  (* LensLikelihoodBase *)
  LensLikelihoodBase_init : float -> float -> likelihood_config -> res unit;
  log_likelihood : float -> float -> scaling -> option float -> res float
     (* ddt, dd, aniso_scaling, sigma_v_sys_error *)
}.

(** The cosmology object handed to [lens_log_likelihood]; the two methods
    return a quantity whose [.value] is the float. *)
Record cosmology : Type := {
  angular_diameter_distance : float -> res float;
  angular_diameter_distance_z1z2 : float -> float -> res float
}.

Section Model.

Context {E : Externals}.

(** Calls to collaborators, as they are observed from outside. *)
Inductive event : Type :=
| Call_normal (loc scale : float)
| Call_draw_one
| Call_draw_anisotropy (kw : kwargs)
| Call_ani_scaling (a : aniso)
| Call_displace_prediction (ddt dd gamma_ppn lambda_mst kappa_ext : float)
| Call_log_likelihood (ddt dd : float) (s : scaling) (sigma_v_sys_error : option float)
| Call_angular_diameter_distance (z : float)
| Call_angular_diameter_distance_z1z2 (z1 z2 : float).

Record world : Type := {
  w_rng : rng_state;
  w_trace : list event
}.

Definition M (A : Type) : Type := world -> res A * world.

Definition ret {A : Type} (a : A) : M A := fun w => (Ok a, w).

Definition raise {A : Type} (e : exn) : M A := fun w => (Raise e, w).

Definition bind {A B : Type} (m : M A) (k : A -> M B) : M B :=
  fun w =>
    match m w with
    | (Ok a, w') => k a w'
    | (Raise e, w') => (Raise e, w')
    end.

Notation "'let!' x ':=' m 'in' k" := (bind m (fun x => k))
  (at level 10, x binder, k at level 200).

(** A call that uses the random generator. *)
Definition call_rng {A : Type} (ev : event)
    (f : rng_state -> res A * rng_state) : M A :=
  fun w =>
    let '(r, g) := f (w_rng w) in
    (r, {| w_rng := g; w_trace := w_trace w ++ [ev] |}).

(** A call to a deterministic collaborator. *)
Definition call_pure {A : Type} (ev : event) (r : res A) : M A :=
  fun w => (r, {| w_rng := w_rng w; w_trace := w_trace w ++ [ev] |}).

Definition normal (loc scale : float) : M float :=
  call_rng (Call_normal loc scale) (np_random_normal loc scale).

(** ** The class [LensLikelihood] *)

(** The attributes [__init__] sets on [self]. [_kappa_dist] exists only
    when both the PDF and its bin edges were given. *)
Record LensLikelihood : Type := {
  _z_lens : float;
  _z_source : float;
  _num_distribution_draws : Z;
  _kappa_ext_bias : bool;
  _mst_ifu : bool;
  _kappa_dist : option sampler;
  _draw_kappa : bool
}.

(** The arguments of [__init__]. [num_distribution_draws] is documented as
    an [int], on which [int(...)] is the identity. *)
Record init_args : Type := {
  a_z_lens : float;
  a_z_source : float;
  a_likelihood : likelihood_config;
  a_ani_scaling_array_list : option (list (list float));
  a_ani_scaling_array : option (list float);
  a_num_distribution_draws : Z;
  a_kappa_ext_bias : bool;
  a_kappa_pdf : option (list float);
  a_kappa_bin_edges : option (list float);
  a_mst_ifu : bool
}.

Definition bind_res {A B : Type} (r : res A) (k : A -> res B) : res B :=
  match r with
  | Ok a => k a
  | Raise e => Raise e
  end.

Definition __init__ (a : init_args) : res LensLikelihood :=
  bind_res (TransformedCosmography_init (a_z_lens a) (a_z_source a)) (fun _ =>
  let ani_scaling_array_list :=
    match a_ani_scaling_array_list a, a_ani_scaling_array a with
    | None, Some arr => Some [arr]
    | l, _ => l
    end in
  bind_res (AnisotropyScalingIFU_init (a_likelihood a) ani_scaling_array_list) (fun _ =>
  bind_res (LensLikelihoodBase_init (a_z_lens a) (a_z_source a) (a_likelihood a)) (fun _ =>
  let mk kd dk :=
    {| _z_lens := a_z_lens a;
       _z_source := a_z_source a;
       _num_distribution_draws := a_num_distribution_draws a;
       _kappa_ext_bias := a_kappa_ext_bias a;
       _mst_ifu := a_mst_ifu a;
       _kappa_dist := kd;
       _draw_kappa := dk |} in
  match a_kappa_pdf a, a_kappa_bin_edges a with
  | Some kappa_pdf, Some kappa_bin_edges =>
      bind_res (PDFSampling kappa_bin_edges kappa_pdf) (fun s =>
      Ok (mk (Some s) true))
  | _, _ => Ok (mk None false)
  end))).

Section Methods.

Variable self : LensLikelihood.

(** [angular_diameter_distances]: three calls to the cosmology, then
    [(1. + z_lens) * dd * ds / dds], evaluated left to right. *)
Definition angular_diameter_distances (cosmo : cosmology) : M (float * float) :=
  let! dd := call_pure (Call_angular_diameter_distance (_z_lens self))
               (angular_diameter_distance cosmo (_z_lens self)) in
  let! ds := call_pure (Call_angular_diameter_distance (_z_source self))
               (angular_diameter_distance cosmo (_z_source self)) in
  let! dds := call_pure
               (Call_angular_diameter_distance_z1z2 (_z_lens self) (_z_source self))
               (angular_diameter_distance_z1z2 cosmo (_z_lens self) (_z_source self)) in
  let ddt := ((1 + _z_lens self) * dd * ds / dds)%float in
  ret (ddt, dd).

(** [check_dist] *)
Definition check_dist (kwargs_lens kwargs_kin : kwargs) : bool :=
  let lambda_mst_sigma := dict_get "lambda_mst_sigma" 0 kwargs_lens in
  let kappa_ext_sigma := dict_get "kappa_ext_sigma" 0 kwargs_lens in
  let a_ani_sigma := dict_get "a_ani_sigma" 0 kwargs_kin in
  let beta_inf_sigma := dict_get "beta_inf_sigma" 0 kwargs_kin in
  if ((a_ani_sigma =? 0)%float && (lambda_mst_sigma =? 0)%float
      && (kappa_ext_sigma =? 0)%float && (beta_inf_sigma =? 0)%float)%bool
  then (if negb (_draw_kappa self) then true else false)
  else false.

(** The parameters of [draw_lens], with their defaults. *)
Record draw_lens_args : Type := {
  lambda_mst : float;
  lambda_mst_sigma : float;
  kappa_ext : float;
  kappa_ext_sigma : float;
  gamma_ppn : float;
  lambda_ifu : float;
  lambda_ifu_sigma : float
}.

Definition draw_lens_names : list string :=
  ["lambda_mst"; "lambda_mst_sigma"; "kappa_ext"; "kappa_ext_sigma";
   "gamma_ppn"; "lambda_ifu"; "lambda_ifu_sigma"].

(** [draw_lens] called with the dictionary unpacked as keyword arguments:
    a key that is not a parameter is a [TypeError]; a missing key takes the
    default. *)
Definition bind_draw_lens (kw : kwargs) : res draw_lens_args :=
  if forallb (fun k => bool_decide (k ∈ draw_lens_names)) (elements (dom kw))
  then Ok {| lambda_mst := dict_get "lambda_mst" 1 kw;
             lambda_mst_sigma := dict_get "lambda_mst_sigma" 0 kw;
             kappa_ext := dict_get "kappa_ext" 0 kw;
             kappa_ext_sigma := dict_get "kappa_ext_sigma" 0 kw;
             gamma_ppn := dict_get "gamma_ppn" 1 kw;
             lambda_ifu := dict_get "lambda_ifu" 1 kw;
             lambda_ifu_sigma := dict_get "lambda_ifu_sigma" 0 kw |}
  else Raise TypeError.

(** [draw_lens] *)
Definition draw_lens (a : draw_lens_args) : M (float * float * float) :=
  let! lambda_mst_draw :=
    if _mst_ifu self
    then normal (lambda_ifu a) (lambda_ifu_sigma a)
    else normal (lambda_mst a) (lambda_mst_sigma a) in
  let! kappa_ext_draw :=
    if _draw_kappa self then
      match _kappa_dist self with
      | Some s => call_rng Call_draw_one (draw_one s)
      | None => raise AttributeError
      end
    else if _kappa_ext_bias self then
      normal (kappa_ext a) (kappa_ext_sigma a)
    else ret 0%float in
  ret (lambda_mst_draw, kappa_ext_draw, gamma_ppn a).

Definition draw_lens_kw (kwargs_lens : kwargs) : M (float * float * float) :=
  match bind_draw_lens kwargs_lens with
  | Ok a => draw_lens a
  | Raise e => raise e
  end.

(** The body of the sharp branch of [hyper_param_likelihood]. *)
Definition sharp_path (ddt dd : float) (kwargs_lens kwargs_kin : kwargs)
    (sigma_v_sys_error : option float) : M float :=
  let! '(lambda_mst, kappa_ext, gamma_ppn) := draw_lens_kw kwargs_lens in
  let! '(ddt_, dd_) :=
    call_pure (Call_displace_prediction ddt dd gamma_ppn lambda_mst kappa_ext)
      (displace_prediction ddt dd gamma_ppn lambda_mst kappa_ext) in
  let! aniso_param_array :=
    call_rng (Call_draw_anisotropy kwargs_kin) (draw_anisotropy kwargs_kin) in
  let! aniso_scaling :=
    call_pure (Call_ani_scaling aniso_param_array) (ani_scaling aniso_param_array) in
  let! lnlog :=
    call_pure (Call_log_likelihood ddt_ dd_ aniso_scaling sigma_v_sys_error)
      (log_likelihood ddt_ dd_ aniso_scaling sigma_v_sys_error) in
  ret lnlog.

(** One pass through the body of the [for] loop, up to the per-draw
    log-likelihood. *)
Definition mc_draw (ddt dd : float) (kwargs_lens kwargs_kin : kwargs)
    (sigma_v_sys_error : option float) : M float :=
  let! '(lambda_mst_draw, kappa_ext_draw, gamma_ppn) := draw_lens_kw kwargs_lens in
  let! aniso_param_draw :=
    call_rng (Call_draw_anisotropy kwargs_kin) (draw_anisotropy kwargs_kin) in
  let! aniso_scaling :=
    call_pure (Call_ani_scaling aniso_param_draw) (ani_scaling aniso_param_draw) in
  let! '(ddt_, dd_) :=
    call_pure (Call_displace_prediction ddt dd gamma_ppn lambda_mst_draw kappa_ext_draw)
      (displace_prediction ddt dd gamma_ppn lambda_mst_draw kappa_ext_draw) in
  call_pure (Call_log_likelihood ddt_ dd_ aniso_scaling sigma_v_sys_error)
    (log_likelihood ddt_ dd_ aniso_scaling sigma_v_sys_error).

(** [np.isfinite(exp_logl) and exp_logl > 0] *)
Definition accepted (exp_logl : float) : bool :=
  Np.isfinite exp_logl && (0 <? exp_logl)%float.

(** The [for] loop, with [n] iterations left and the running sum. *)
Fixpoint mc_loop (n : nat) (ddt dd : float) (kwargs_lens kwargs_kin : kwargs)
    (sigma_v_sys_error : option float) (likelihood : float) : M float :=
  match n with
  | O => ret likelihood
  | S n' =>
      let! logl := mc_draw ddt dd kwargs_lens kwargs_kin sigma_v_sys_error in
      let exp_logl := np_exp logl in
      let likelihood :=
        if accepted exp_logl then (likelihood + exp_logl)%float else likelihood in
      mc_loop n' ddt dd kwargs_lens kwargs_kin sigma_v_sys_error likelihood
  end.

(** What follows the loop. *)
Definition mc_result (likelihood : float) : float :=
  if (likelihood <=? 0)%float then Np.neg_inf
  else np_log (likelihood / Np.of_int (_num_distribution_draws self))%float.

(** The body of the Monte Carlo branch; [range(n)] is empty for [n <= 0]. *)
Definition mc_path (ddt dd : float) (kwargs_lens kwargs_kin : kwargs)
    (sigma_v_sys_error : option float) : M float :=
  let! likelihood :=
    mc_loop (Z.to_nat (_num_distribution_draws self))
      ddt dd kwargs_lens kwargs_kin sigma_v_sys_error 0%float in
  ret (mc_result likelihood).

(** [hyper_param_likelihood]. The keyword dictionaries are dictionaries
    (the method is not written for [None]). The second component of the
    result is [kwargs_kin] as the caller finds it after the call. *)
Definition hyper_param_likelihood (ddt dd : float) (kwargs_lens kwargs_kin : kwargs)
    (w : world) : res float * kwargs * world :=
  let '(sigma_v_sys_error, kwargs_kin) := dict_pop "sigma_v_sys_error" kwargs_kin in
  let '(r, w') :=
    (if check_dist kwargs_lens kwargs_kin
     then sharp_path ddt dd kwargs_lens kwargs_kin sigma_v_sys_error
     else mc_path ddt dd kwargs_lens kwargs_kin sigma_v_sys_error) w in
  (r, kwargs_kin, w').

(** [lens_log_likelihood] *)
Definition lens_log_likelihood (cosmo : cosmology) (kwargs_lens kwargs_kin : kwargs)
    (w : world) : res float * kwargs * world :=
  match angular_diameter_distances cosmo w with
  | (Ok (ddt, dd), w') => hyper_param_likelihood ddt dd kwargs_lens kwargs_kin w'
  | (Raise e, w') => (Raise e, kwargs_kin, w')
  end.

End Methods.

End Model.

(** ** A reference set of collaborators

    Used to run the model on concrete inputs.  The generator state is the
    list of standard-normal deviates it will hand out next;
    [normal(loc, scale)] is [loc + scale * z] and refuses a negative scale.
    The anisotropy draw accepts the four anisotropy keywords only, so a
    [sigma_v_sys_error] left in the dictionary would be a [TypeError].  The
    likelihood kernel is a parameter. *)

Module Ref.

Definition gauss (loc scale : float) (g : list float) : res float * list float :=
  if (scale <? 0)%float then (Raise ValueError, g)
  else match g with
       | z :: g' => (Ok (loc + scale * z)%float, g')
       | [] => (Ok loc, [])
       end.

Definition make_sampler (bin_edges pdf_array : list float)
    : res (list float * list float) :=
  if (length bin_edges =? S (length pdf_array))%nat
  then Ok (bin_edges, pdf_array) else Raise ValueError.

Definition sample (s : list float * list float) (g : list float)
    : res float * list float :=
  match g with
  | z :: g' => (Ok z, g')
  | [] => (Ok 0%float, [])
  end.

Definition draw_aniso (kw : kwargs) (g : list float) : res float * list float :=
  if forallb (fun k => bool_decide
                (k ∈ ["a_ani"; "a_ani_sigma"; "beta_inf"; "beta_inf_sigma"]))
       (elements (dom kw))
  then gauss (dict_get "a_ani" 1 kw) (dict_get "a_ani_sigma" 0 kw) g
  else (Raise TypeError, g).

Definition displace (ddt dd gamma_ppn lambda_mst kappa_ext : float)
    : res (float * float) :=
  Ok (ddt * (1 - kappa_ext) * lambda_mst, dd * (1 + gamma_ppn) / 2)%float.

Definition externals
    (kernel : float -> float -> float -> option float -> res float) : Externals :=
  {| rng_state := list float;
     aniso := float;
     scaling := float;
     sampler := list float * list float;
     likelihood_config := unit;
     np_exp := Libm.exp;
     np_log := Libm.log;
     np_random_normal := gauss;
     PDFSampling := make_sampler;
     draw_one := sample;
     AnisotropyScalingIFU_init := fun _ _ => Ok tt;
     draw_anisotropy := draw_aniso;
     ani_scaling := fun a => Ok a;
     TransformedCosmography_init := fun _ _ => Ok tt;
     displace_prediction := displace;
     LensLikelihoodBase_init := fun _ _ _ => Ok tt;
     log_likelihood := kernel |}.

(** A kernel that returns the displaced time-delay distance itself, so
    that the per-draw log-likelihood can be read off the inputs. *)
Definition kernel_ddt (ddt dd s : float) (sv : option float) : res float := Ok ddt.

(** A lens with [n] draws and every option off. *)
Definition lens (E : Externals) (n : Z) : @LensLikelihood E :=
  @Build_LensLikelihood E 0.5 2 n false false None false.

Definition start (g : list float) : @world (externals kernel_ddt) :=
  @Build_world (externals kernel_ddt) g [].

(** A toy cosmology with a linear Hubble law: comoving distance
    [d_H * z]. *)
Definition hubble_law (d_H : float) : cosmology :=
  {| angular_diameter_distance := fun z => Ok (d_H * z / (1 + z))%float;
     angular_diameter_distance_z1z2 :=
       fun z1 z2 => Ok (d_H * (z2 - z1) / (1 + z2))%float |}.

(** A cosmology whose distance to a single redshift is unavailable. *)
Definition no_distance : cosmology :=
  {| angular_diameter_distance := fun z => Raise ValueError;
     angular_diameter_distance_z1z2 :=
       fun z1 z2 => Ok (4000 * (z2 - z1) / (1 + z2))%float |}.

(** A cosmology that fails only on the distance between two redshifts. *)
Definition no_pair_distance : cosmology :=
  {| angular_diameter_distance := fun z => Ok (4000 * z / (1 + z))%float;
     angular_diameter_distance_z1z2 := fun z1 z2 => Raise OtherError |}.

End Ref.

(** ** The Monte Carlo estimator, stated on the list of draws

    [per_draw_logls n] performs [n] draws in order and collects the per-draw
    log-likelihoods; [mc_sum] is the sum of the accepted exponentials, added
    in the order of the draws. *)

Section Estimator.

Context {E : Externals}.
Variable self : LensLikelihood.

Fixpoint per_draw_logls (n : nat) (ddt dd : float) (kwargs_lens kwargs_kin : kwargs)
    (sigma_v_sys_error : option float) : M (list float) :=
  match n with
  | O => ret []
  | S n' =>
      bind (mc_draw self ddt dd kwargs_lens kwargs_kin sigma_v_sys_error) (fun logl =>
      bind (per_draw_logls n' ddt dd kwargs_lens kwargs_kin sigma_v_sys_error) (fun logls =>
      ret (logl :: logls)))
  end.

Definition mc_sum_from (s0 : float) (logls : list float) : float :=
  fold_left PrimFloat.add (filter accepted (map np_exp logls)) s0.

Definition mc_sum (logls : list float) : float := mc_sum_from 0%float logls.

Definition is_kernel_call (ev : event) : bool :=
  match ev with
  | Call_log_likelihood _ _ _ _ => true
  | _ => false
  end.

Definition kernel_calls (t : list event) : nat :=
  length (filter is_kernel_call t).

(** What a call of [hyper_param_likelihood] may hand to the collaborators:
    the anisotropy draw sees exactly [kk], the kernel exactly [sv]. *)
Definition event_ok (kk : kwargs) (sv : option float) (ev : event) : Prop :=
  match ev with
  | Call_draw_anisotropy kw => kw = kk
  | Call_log_likelihood _ _ _ s => s = sv
  | _ => True
  end.

End Estimator.

(** ** Varying one group of arguments

    Used to state that a result does not depend on some arguments. *)

Section Variations.

Context {E : Externals}.

(** The same call of [draw_lens] with other values for [kappa_ext] and
    [kappa_ext_sigma]. *)
Definition with_kappa_ext (a : draw_lens_args) (ke kes : float) : draw_lens_args :=
  {| lambda_mst := lambda_mst a;
     lambda_mst_sigma := lambda_mst_sigma a;
     kappa_ext := ke;
     kappa_ext_sigma := kes;
     gamma_ppn := gamma_ppn a;
     lambda_ifu := lambda_ifu a;
     lambda_ifu_sigma := lambda_ifu_sigma a |}.

(** The same call of [draw_lens] with other values for [lambda_mst] and
    [lambda_mst_sigma]. *)
Definition with_lambda_mst (a : draw_lens_args) (lm lms : float) : draw_lens_args :=
  {| lambda_mst := lm;
     lambda_mst_sigma := lms;
     kappa_ext := kappa_ext a;
     kappa_ext_sigma := kappa_ext_sigma a;
     gamma_ppn := gamma_ppn a;
     lambda_ifu := lambda_ifu a;
     lambda_ifu_sigma := lambda_ifu_sigma a |}.

(** The same constructor call with another number of draws. *)
Definition with_num_draws (a : init_args) (n : Z) : init_args :=
  {| a_z_lens := a_z_lens a;
     a_z_source := a_z_source a;
     a_likelihood := a_likelihood a;
     a_ani_scaling_array_list := a_ani_scaling_array_list a;
     a_ani_scaling_array := a_ani_scaling_array a;
     a_num_distribution_draws := n;
     a_kappa_ext_bias := a_kappa_ext_bias a;
     a_kappa_pdf := a_kappa_pdf a;
     a_kappa_bin_edges := a_kappa_bin_edges a;
     a_mst_ifu := a_mst_ifu a |}.

(** The same constructor call with neither the PDF nor its bin edges. *)
Definition without_kappa_pdf (a : init_args) : init_args :=
  {| a_z_lens := a_z_lens a;
     a_z_source := a_z_source a;
     a_likelihood := a_likelihood a;
     a_ani_scaling_array_list := a_ani_scaling_array_list a;
     a_ani_scaling_array := a_ani_scaling_array a;
     a_num_distribution_draws := a_num_distribution_draws a;
     a_kappa_ext_bias := a_kappa_ext_bias a;
     a_kappa_pdf := None;
     a_kappa_bin_edges := None;
     a_mst_ifu := a_mst_ifu a |}.

(** The lambda draw at the head of [draw_lens]. *)
Definition lambda_draw (self : LensLikelihood) (a : draw_lens_args) : M float :=
  if _mst_ifu self
  then normal (lambda_ifu a) (lambda_ifu_sigma a)
  else normal (lambda_mst a) (lambda_mst_sigma a).

(** A sigma that is absent from the dictionary, or present and equal to
    zero (of either sign). *)
Definition zero_or_absent (k : string) (d : kwargs) : Prop :=
  match d !! k with
  | None => True
  | Some v => v = 0%float \/ v = neg_zero
  end.

End Variations.

(** ** Further variations and counters *)

Section MoreVariations.

Context {E : Externals}.


(** The same call of [draw_lens] with another [gamma_ppn]. *)
Definition with_gamma_ppn (a : draw_lens_args) (g : float) : draw_lens_args :=
  {| lambda_mst := lambda_mst a;
     lambda_mst_sigma := lambda_mst_sigma a;
     kappa_ext := kappa_ext a;
     kappa_ext_sigma := kappa_ext_sigma a;
     gamma_ppn := g;
     lambda_ifu := lambda_ifu a;
     lambda_ifu_sigma := lambda_ifu_sigma a |}.

(** The same constructor call with other anisotropy-scaling arguments. *)
Definition with_ani_scaling (a : init_args)
    (l : option (list (list float))) (arr : option (list float)) : init_args :=
  {| a_z_lens := a_z_lens a;
     a_z_source := a_z_source a;
     a_likelihood := a_likelihood a;
     a_ani_scaling_array_list := l;
     a_ani_scaling_array := arr;
     a_num_distribution_draws := a_num_distribution_draws a;
     a_kappa_ext_bias := a_kappa_ext_bias a;
     a_kappa_pdf := a_kappa_pdf a;
     a_kappa_bin_edges := a_kappa_bin_edges a;
     a_mst_ifu := a_mst_ifu a |}.

(** Calls that consume the random generator. *)
Definition is_generator_call (ev : event) : bool :=
  match ev with
  | Call_normal _ _ | Call_draw_one | Call_draw_anisotropy _ => true
  | _ => false
  end.

Definition generator_calls (t : list event) : nat :=
  length (filter is_generator_call t).

Definition is_Ok {A : Type} (r : res A) : Prop :=
  match r with
  | Ok _ => True
  | Raise _ => False
  end.

(** Generator calls of one [draw_lens]: the lambda draw, and the
    convergence draw when a PDF is configured or [kappa_ext_bias] is on. *)
Definition draws_per_lens (self : LensLikelihood) : nat :=
  if (_draw_kappa self || _kappa_ext_bias self)%bool then 2%nat else 1%nat.

(** A keyword that [draw_lens] does not take. *)
Definition unexpected_keyword (kw : kwargs) : Prop :=
  exists k, is_Some (kw !! k) /\ k ∉ draw_lens_names.

End MoreVariations.

(** ** Concrete scenarios

    Inputs on which the model is run below. *)

Module Scenario.

Abbreviation E0 := (Ref.externals Ref.kernel_ddt).

(** A lens-side dictionary with a spread on [lambda_mst] only. *)
Definition spread_lens : kwargs := {[ "lambda_mst_sigma" := 1%float ]}.

(** Two draws; the deviate [1000] sends the second one far away. *)
Definition two_draws : @world E0 := Ref.start [0; 0; 1000; 0]%float.

(** A lens configured with two draws. *)
Definition lens2 : @LensLikelihood E0 := Ref.lens E0 2.

(** [draw_lens] called with its defaults. *)
Definition defaults : draw_lens_args :=
  Build_draw_lens_args 1 0 0 0 1 1 0.

(** A lens with a convergence PDF on one bin. *)
Definition lens_pdf : @LensLikelihood E0 :=
  @Build_LensLikelihood E0 0.5 2 2 false false
    (Some ([0; 1]%float, [1]%float)) true.

(** A lens whose lambda draw is redirected to the IFU parameters. *)
Definition lens_ifu : @LensLikelihood E0 :=
  @Build_LensLikelihood E0 0.5 2 2 false true None false.

Definition two_deviates : @world E0 := Ref.start [0.5; 0.25]%float.

(** A kinematic dictionary that carries the systematic-error override. *)
Definition kin_with_override : kwargs :=
  {[ "sigma_v_sys_error" := 0.25%float; "a_ani" := 1%float ]}.

(** A lens configured with a negative number of draws. *)
Definition lens_neg : @LensLikelihood E0 := Ref.lens E0 (-3).

(** Constructor arguments with the PDF but without its bin edges. *)
Definition init_pdf_only : @init_args E0 :=
  @Build_init_args E0 0.5 2 tt None None 50 true (Some [1]%float) None false.

(** A lens configured with a single draw. *)
Definition lens1 : @LensLikelihood E0 := Ref.lens E0 1.

(** A generator that hands out the deviate [0] only. *)
Definition calm : @world E0 := Ref.start [].

(** A lens-side dictionary with a misspelt keyword. *)
Definition misspelt_lens : kwargs := {[ "lambda_mst_sigm" := 1%float ]}.

(** A lens-side dictionary with a spread on the IFU lambda only. *)
Definition ifu_spread : kwargs := {[ "lambda_ifu_sigma" := 1%float ]}.

(** Constructor arguments with a one-bin PDF and its two edges. *)
Definition init_both : @init_args E0 :=
  @Build_init_args E0 0.5 2 tt None None 50 true
    (Some [1]%float) (Some [0; 1]%float) false.

(** Constructor arguments with a PDF and too few edges. *)
Definition init_malformed : @init_args E0 :=
  @Build_init_args E0 0.5 2 tt None None 50 true
    (Some [1]%float) (Some [0]%float) false.

(** Constructor arguments with a single anisotropy-scaling array. *)
Definition init_one_array : @init_args E0 :=
  @Build_init_args E0 0.5 2 tt None (Some [1; 2]%float) 50 false None None false.

(** A lens-side dictionary with a negative spread, which the generator
    refuses. *)
Definition negative_spread : kwargs := {[ "lambda_mst_sigma" := (-1)%float ]}.

(** A generator that hands out the deviate [2] first. *)
Definition one_deviate : @world E0 := Ref.start [2]%float.

End Scenario.

(** * Properties *)

Ltac destruct_match_hyp H :=
  match type of H with
  | context [match ?x with _ => _ end] => destruct x eqn:?
  end.

(** Case analysis on everything an evaluation in a hypothesis branches on. *)
Ltac crunch :=
  repeat match goal with
         | H : (_, _) = (_, _) |- _ => inversion H; subst; clear H
         | H : context [match ?x with _ => _ end] |- _ => destruct x eqn:?
         end.

Ltac destruct_match_goal :=
  match goal with
  | |- context [match ?x with _ => _ end] => destruct x eqn:?
  end.

Ltac unfold_calls :=
  unfold bind, normal, call_rng, call_pure, ret, raise in *.

(** ** The reference [exp] and [log] on the values used below *)

Example libm_special_values :
  (Libm.exp 0 = 1
   /\ Libm.exp neg_infinity = 0
   /\ Libm.exp infinity = infinity
   /\ Libm.exp nan = nan
   /\ Libm.exp (-1000) = 0
   /\ Libm.exp (-744.5) = 0x1p-1074
   /\ Libm.log 1 = 0
   /\ Libm.log 0 = neg_infinity
   /\ Libm.log infinity = infinity
   /\ Libm.log (-1) = nan)%float.
Proof. vm_compute. repeat split. Qed.

(** One unit in the last place above the correctly rounded value of [e]. *)
Example libm_exp_one : next_down (Libm.exp 1) = 0x1.5bf0a8b145769p+1%float.
Proof. vm_compute. reflexivity. Qed.

(** ** Binary64 facts

    Rounding a positive number whose exponent is at least the smallest
    binary64 exponent gives a positive number: right shifts stop at the
    precision, so the mantissa never vanishes. *)

Section Rounding.

Local Open Scope Z_scope.

Lemma shr_1_nonneg (mrs : shr_record) :
  0 <= shr_m mrs -> shr_m (shr_1 mrs) = shr_m mrs / 2.
Proof.
  destruct mrs as [m r s]. simpl. intros Hm.
  destruct m as [|p|p]; [reflexivity| |lia].
  destruct p as [p|p|]; simpl.
  - rewrite Pos2Z.inj_xI. apply Z.div_unique with 1; lia.
  - rewrite Pos2Z.inj_xO. apply Z.div_unique with 0; lia.
  - reflexivity.
Qed.

Lemma iter_shr_1 (p : positive) :
  forall mrs, 0 <= shr_m mrs ->
    shr_m (SpecFloat.iter_pos shr_1 p mrs) = shr_m mrs / 2 ^ Zpos p.
Proof.
  induction p as [p IH|p IH|]; intros mrs Hm; simpl SpecFloat.iter_pos.
  - assert (H1 : 0 <= shr_m (shr_1 mrs)).
    { rewrite shr_1_nonneg by assumption. apply Z.div_pos; lia. }
    assert (H2 : 0 <= shr_m (SpecFloat.iter_pos shr_1 p (shr_1 mrs))).
    { rewrite IH by assumption. apply Z.div_pos; [assumption | apply Z.pow_pos_nonneg; lia]. }
    rewrite IH, IH, shr_1_nonneg by assumption.
    rewrite !Z.div_div by (try apply Z.pow_pos_nonneg; lia).
    f_equal. transitivity (2 ^ (1 + Zpos p + Zpos p)).
    + rewrite !Z.pow_add_r by lia. change (2 ^ 1) with 2. lia.
    + f_equal. lia.
  - assert (H2 : 0 <= shr_m (SpecFloat.iter_pos shr_1 p mrs)).
    { rewrite IH by assumption. apply Z.div_pos; [assumption | apply Z.pow_pos_nonneg; lia]. }
    rewrite IH, IH by assumption.
    rewrite !Z.div_div by (try apply Z.pow_pos_nonneg; lia).
    f_equal. rewrite <- Z.pow_add_r by lia. f_equal. lia.
  - rewrite shr_1_nonneg by assumption. reflexivity.
Qed.

Lemma digits2_pos_bound (p : positive) :
  2 ^ (Zpos (digits2_pos p) - 1) <= Zpos p.
Proof.
  induction p as [p IH|p IH|]; simpl digits2_pos.
  - rewrite Pos2Z.inj_succ.
    replace (Z.succ (Zpos (digits2_pos p)) - 1) with (1 + (Zpos (digits2_pos p) - 1)) by lia.
    rewrite Z.pow_add_r by lia. change (2 ^ 1) with 2. lia.
  - rewrite Pos2Z.inj_succ.
    replace (Z.succ (Zpos (digits2_pos p)) - 1) with (1 + (Zpos (digits2_pos p) - 1)) by lia.
    rewrite Z.pow_add_r by lia. change (2 ^ 1) with 2. lia.
  - simpl. lia.
Qed.

Lemma shr_fexp_pos (m e : Z) (l : location) :
  0 < m -> (-1074) <= e ->
  0 < shr_m (fst (shr_fexp prec emax m e l))
  /\ (-1074) <= snd (shr_fexp prec emax m e l).
Proof.
  intros Hm He. unfold shr_fexp, shr.
  assert (Hsm : shr_m (shr_record_of_loc m l) = m).
  { destruct l as [|[| |]]; reflexivity. }
  destruct m as [|p|p]; try lia. simpl Zdigits2.
  pose proof (digits2_pos_bound p) as Hd.
  set (d := Zpos (digits2_pos p)) in *.
  unfold fexp, SpecFloat.emin. change (3 - emax - prec) with (-1074).
  change prec with 53.
  destruct (Z.max (d + e - 53) (-1074) - e) as [|n|n] eqn:Hn; simpl; rewrite ?Hsm; try lia.
  split; [|lia].
  rewrite iter_shr_1 by (rewrite Hsm; lia). rewrite Hsm.
  assert (Hnd : Zpos n <= d - 1) by lia.
  assert (Hpow : 2 ^ Zpos n <= 2 ^ (d - 1)) by (apply Z.pow_le_mono_r; lia).
  assert (0 < 2 ^ Zpos n) by (apply Z.pow_pos_nonneg; lia).
  apply Z.div_str_pos. lia.
Qed.

Lemma round_nearest_even_pos (m : Z) (l : location) :
  0 < m -> 0 < round_nearest_even m l.
Proof.
  intros Hm. destruct l as [|[| |]]; simpl; try lia.
  destruct (Z.even m); lia.
Qed.

Lemma binary_round_aux_pos (m e : Z) (l : location) :
  0 < m -> (-1074) <= e ->
  SF_positive (binary_round_aux prec emax false m e l).
Proof.
  intros Hm He. unfold binary_round_aux.
  destruct (shr_fexp_pos m e l Hm He) as [H1 H2].
  destruct (shr_fexp prec emax m e l) as [mrs' e']. simpl in H1, H2.
  pose proof (round_nearest_even_pos _ (loc_of_shr_record mrs') H1) as Hr.
  destruct (shr_fexp_pos _ e' loc_Exact Hr H2) as [H3 _].
  destruct (shr_fexp prec emax _ e' loc_Exact) as [mrs'' e'']. simpl in H3.
  destruct (shr_m mrs''); try lia.
  destruct (Z.leb e'' (emax - prec)); exact I.
Qed.

Lemma binary_round_pos (m : positive) (e : Z) :
  (-1074) <= e -> SF_positive (binary_round prec emax false m e).
Proof.
  intros He. unfold binary_round, shl_align.
  set (t := fexp prec emax (Zpos (digits2_pos m) + e)).
  assert (Ht : (-1074) <= t).
  { unfold t, fexp, SpecFloat.emin. change (3 - emax - prec) with (-1074). lia. }
  destruct (t - e) as [|d|d] eqn:Hd; apply binary_round_aux_pos; lia.
Qed.

Lemma valid_binary_emin (s : bool) (m : positive) (e : Z) :
  valid_binary (S754_finite s m e) = true -> (-1074) <= e.
Proof.
  simpl. unfold bounded, canonical_mantissa. intros H.
  apply andb_prop in H. destruct H as [H _]. apply Z.eqb_eq in H.
  unfold fexp, SpecFloat.emin in H. change (3 - emax - prec) with (-1074) in H. lia.
Qed.

Lemma SFadd_pos (x y : spec_float) :
  valid_binary x = true -> valid_binary y = true ->
  (x = S754_zero false \/ SF_positive x) ->
  (exists m e, y = S754_finite false m e) ->
  SF_positive (SF64add x y).
Proof.
  intros Vx Vy Hx (my & ey & ->).
  destruct Hx as [-> | Hx]; [exact I|].
  destruct x as [s|s| |s mx ex]; try contradiction; destruct s; try contradiction.
  - exact I.
  - apply valid_binary_emin in Vx, Vy.
    unfold SF64add, SFadd. simpl cond_Zopp.
    apply binary_round_pos. lia.
Qed.

End Rounding.

Lemma ltb_0_iff (x : float) :
  (0 <? x)%float = true <-> SF_positive (Prim2SF x).
Proof.
  rewrite ltb_spec. change (Prim2SF 0) with (S754_zero false).
  destruct (Prim2SF x) as [s|s| |s m e]; simpl; try destruct s; simpl;
    intuition discriminate.
Qed.

Lemma ltb_0_not_leb (s : float) :
  (0 <? s)%float = true -> (s <=? 0)%float = false.
Proof.
  rewrite ltb_spec, leb_spec.
  change (Prim2SF 0) with (S754_zero false).
  destruct (Prim2SF s) as [sg|sg| |sg m e]; simpl; try discriminate; auto.
  all: destruct sg; simpl; try discriminate; auto.
Qed.

Lemma finite_positive_spec (x : float) :
  is_finite x = true -> (0 <? x)%float = true ->
  exists m e, Prim2SF x = S754_finite false m e.
Proof.
  intros Hfin Hpos. apply ltb_0_iff in Hpos.
  unfold is_finite, is_infinity in Hfin.
  rewrite FloatAxioms.eqb_spec, abs_spec in Hfin.
  destruct (Prim2SF x) as [s|s| |s m e]; try contradiction;
    destruct s; try contradiction.
  - rewrite orb_true_r in Hfin. discriminate.
  - eauto.
Qed.

(** Adding a finite positive number to zero or to a positive number gives a
    positive number (possibly plus infinity), never NaN. *)
Lemma add_finite_positive (s x : float) :
  s = 0%float \/ (0 <? s)%float = true ->
  is_finite x = true -> (0 <? x)%float = true ->
  (0 <? s + x)%float = true.
Proof.
  intros Hs Hfin Hpos. apply ltb_0_iff. rewrite add_spec.
  apply SFadd_pos; try apply Prim2SF_valid.
  - destruct Hs as [-> | Hs]; [now left | right; now apply ltb_0_iff].
  - now apply finite_positive_spec.
Qed.

Section Traces.

Context {E : Externals}.
Variable self : LensLikelihood.

Lemma kernel_calls_app (t1 t2 : list event) :
  kernel_calls (t1 ++ t2) = (kernel_calls t1 + kernel_calls t2)%nat.
Proof. unfold kernel_calls. now rewrite filter_app, length_app. Qed.

(** [draw_lens] only appends generator calls to the trace. *)
Lemma draw_lens_kw_trace kl w r w' :
  draw_lens_kw self kl w = (r, w') ->
  exists t, w_trace w' = w_trace w ++ t
    /\ kernel_calls t = 0%nat
    /\ forall kk sv, Forall (event_ok kk sv) t.
Proof.
  unfold draw_lens_kw, draw_lens. unfold_calls. intros H.
  crunch; simpl; rewrite <- ?app_assoc; simpl;
    (eexists; split; [first [reflexivity | symmetry; apply app_nil_r]|]);
    (split; [reflexivity | intros; repeat constructor]).
Qed.

(** One pass through the loop body: the trace grows, the kernel is called
    at most once, and exactly once when the pass completes. *)
Lemma mc_draw_trace ddt dd kl kk sv w r w' :
  mc_draw self ddt dd kl kk sv w = (r, w') ->
  exists t, w_trace w' = w_trace w ++ t
    /\ Forall (event_ok kk sv) t
    /\ (kernel_calls t <= 1)%nat
    /\ (forall l, r = Ok l -> kernel_calls t = 1%nat).
Proof.
  unfold mc_draw. unfold bind at 1. intros H.
  destruct (draw_lens_kw self kl w) as [[[[lam kap] gam]|e] w1] eqn:Hd.
  2:{ inversion H; subst. destruct (draw_lens_kw_trace _ _ _ _ Hd) as (t & Ht & Hk & Hf).
      exists t. repeat split; auto. rewrite Hk; lia. discriminate. }
  destruct (draw_lens_kw_trace _ _ _ _ Hd) as (t & Ht & Hk & Hf).
  unfold_calls.
  crunch; simpl; rewrite Ht; rewrite <- ?app_assoc;
    (eexists; split; [reflexivity|]); simpl;
    (split; [apply Forall_app; split; [apply Hf | repeat constructor] |]);
    rewrite kernel_calls_app, Hk; unfold kernel_calls; simpl;
    (split; [lia | intros; first [discriminate | reflexivity]]).
Qed.

End Traces.

(** ** The Monte Carlo branch *)

Section MonteCarlo.

Context {E : Externals}.
Variable self : LensLikelihood.

Lemma mc_sum_from_cons (s0 logl : float) (logls : list float) :
  mc_sum_from s0 (logl :: logls) =
  mc_sum_from (if accepted (np_exp logl) then (s0 + np_exp logl)%float else s0) logls.
Proof.
  unfold mc_sum_from. simpl.
  change (filter accepted (np_exp logl :: map np_exp logls))
    with (if decide (accepted (np_exp logl))
          then np_exp logl :: filter accepted (map np_exp logls)
          else filter accepted (map np_exp logls)).
  destruct (accepted (np_exp logl)); reflexivity.
Qed.

(** The loop with its accumulator computes the sum of the accepted
    exponentials of the draws, and raises what the draws raise. *)
Lemma mc_loop_refines (n : nat) ddt dd kl kk sv :
  forall (s0 : float) (w : world),
    mc_loop self n ddt dd kl kk sv s0 w =
    match per_draw_logls self n ddt dd kl kk sv w with
    | (Ok logls, w') => (Ok (mc_sum_from s0 logls), w')
    | (Raise e, w') => (Raise e, w')
    end.
Proof.
  induction n as [|n IH]; intros s0 w; simpl.
  - reflexivity.
  - unfold bind.
    destruct (mc_draw self ddt dd kl kk sv w) as [[logl|e] w1]; [|reflexivity].
    rewrite IH.
    destruct (per_draw_logls self n ddt dd kl kk sv w1) as [[logls|e] w2];
      [|reflexivity].
    unfold ret. now rewrite mc_sum_from_cons.
Qed.

Lemma mc_path_refines ddt dd kl kk sv (w : world) :
  mc_path self ddt dd kl kk sv w =
  match per_draw_logls self (Z.to_nat (_num_distribution_draws self))
          ddt dd kl kk sv w with
  | (Ok logls, w') => (Ok (mc_result self (mc_sum logls)), w')
  | (Raise e, w') => (Raise e, w')
  end.
Proof.
  unfold mc_path, bind. rewrite mc_loop_refines.
  destruct (per_draw_logls _ _ _ _ _ _ _ w) as [[logls|e] w']; reflexivity.
Qed.

(** [n] completed draws are [n] log-likelihoods from [n] kernel calls. *)
Lemma per_draw_logls_trace (n : nat) ddt dd kl kk sv :
  forall (w : world) r w',
    per_draw_logls self n ddt dd kl kk sv w = (r, w') ->
    exists t, w_trace w' = w_trace w ++ t
      /\ Forall (event_ok kk sv) t
      /\ (kernel_calls t <= n)%nat
      /\ (forall logls, r = Ok logls ->
            length logls = n /\ kernel_calls t = n).
Proof.
  induction n as [|n IH]; intros w r w' H; simpl in H.
  - unfold ret in H. inversion H; subst. exists []. rewrite app_nil_r.
    repeat split; auto; inversion H0; reflexivity.
  - unfold bind at 1 in H.
    destruct (mc_draw self ddt dd kl kk sv w) as [r1 w1] eqn:Hd.
    destruct (mc_draw_trace _ _ _ _ _ _ _ _ _ Hd) as (t1 & Ht1 & Hf1 & Hle1 & Hk1).
    destruct r1 as [logl|e].
    2:{ inversion H; subst. exists t1. repeat split; auto; try lia; discriminate. }
    unfold bind at 1 in H.
    destruct (per_draw_logls self n ddt dd kl kk sv w1) as [r2 w2] eqn:Hp.
    destruct (IH _ _ _ Hp) as (t2 & Ht2 & Hf2 & Hle2 & Hk2).
    specialize (Hk1 _ eq_refl).
    exists (t1 ++ t2). rewrite kernel_calls_app.
    destruct r2 as [logls|e]; unfold ret in H; inversion H; subst;
      (split; [rewrite Ht2, Ht1; now rewrite app_assoc|]);
      (split; [apply Forall_app; now split|]);
      (split; [lia|]).
    + intros ls Hl. inversion Hl; subst. destruct (Hk2 _ eq_refl) as [Hl2 Hk2'].
      simpl. split; lia.
    + discriminate.
Qed.

End MonteCarlo.





(** ** The sharp-distribution test *)

Lemma eqb_zero_iff (v : float) :
  (v =? 0)%float = true <-> v = 0%float \/ v = neg_zero.
Proof.
  rewrite FloatAxioms.eqb_spec. change (Prim2SF 0) with (S754_zero false). split.
  - intros H. rewrite <- (SF2Prim_Prim2SF v).
    destruct (Prim2SF v) as [s|s| |s m e]; simpl in H; try discriminate.
    + destruct s; [right | left]; reflexivity.
    + destruct s; discriminate.
    + destruct s; discriminate.
  - intros [-> | ->]; reflexivity.
Qed.

Lemma dict_get_zero (k : string) (d : kwargs) :
  (dict_get k 0 d =? 0)%float = true <-> zero_or_absent k d.
Proof.
  unfold dict_get, zero_or_absent. destruct (d !! k) as [v|]; simpl.
  - apply eqb_zero_iff.
  - split; [trivial | reflexivity].
Qed.

Lemma dict_get_nonzero (k : string) (d : kwargs) :
  (dict_get k 0 d =? 0)%float = false <-> ~ zero_or_absent k d.
Proof.
  rewrite <- dict_get_zero. destruct (dict_get k 0 d =? 0)%float; split;
    congruence.
Qed.

(** C2.  [check_dist] answers true exactly when the four sigmas
    [lambda_mst_sigma], [kappa_ext_sigma], [a_ani_sigma] and
    [beta_inf_sigma] are each absent or zero and no convergence PDF is
    configured; it answers false exactly when one of the sigmas is present
    and not zero, or a convergence PDF is configured. *)
Theorem check_dist_sharp_iff {E : Externals} (self : LensLikelihood)
    (kwargs_lens kwargs_kin : kwargs) :
  (check_dist self kwargs_lens kwargs_kin = true <->
     zero_or_absent "lambda_mst_sigma" kwargs_lens
     /\ zero_or_absent "kappa_ext_sigma" kwargs_lens
     /\ zero_or_absent "a_ani_sigma" kwargs_kin
     /\ zero_or_absent "beta_inf_sigma" kwargs_kin
     /\ _draw_kappa self = false)
  /\ (check_dist self kwargs_lens kwargs_kin = false <->
     ~ zero_or_absent "lambda_mst_sigma" kwargs_lens
     \/ ~ zero_or_absent "kappa_ext_sigma" kwargs_lens
     \/ ~ zero_or_absent "a_ani_sigma" kwargs_kin
     \/ ~ zero_or_absent "beta_inf_sigma" kwargs_kin
     \/ _draw_kappa self = true).
Proof.
  unfold check_dist.
  rewrite <- !dict_get_nonzero, <- !dict_get_zero.
  destruct (dict_get "a_ani_sigma" 0 kwargs_kin =? 0)%float,
           (dict_get "lambda_mst_sigma" 0 kwargs_lens =? 0)%float,
           (dict_get "kappa_ext_sigma" 0 kwargs_lens =? 0)%float,
           (dict_get "beta_inf_sigma" 0 kwargs_kin =? 0)%float,
           (_draw_kappa self); simpl; intuition congruence.
Qed.

(** ** Drawing the lens hyper-parameters *)

Section DrawLens.

Context {E : Externals}.
Variable self : LensLikelihood.

Lemma draw_lens_unfold (a : draw_lens_args) (w : world) :
  draw_lens self a w =
  match lambda_draw self a w with
  | (Ok lam, w1) =>
      if _draw_kappa self then
        match _kappa_dist self with
        | Some s =>
            (res_map (fun k => (lam, k, gamma_ppn a)) (fst (draw_one s (w_rng w1))),
             {| w_rng := snd (draw_one s (w_rng w1));
                w_trace := w_trace w1 ++ [Call_draw_one] |})
        | None => (Raise AttributeError, w1)
        end
      else if _kappa_ext_bias self then
        (res_map (fun k => (lam, k, gamma_ppn a))
           (fst (np_random_normal (kappa_ext a) (kappa_ext_sigma a) (w_rng w1))),
         {| w_rng := snd (np_random_normal (kappa_ext a) (kappa_ext_sigma a) (w_rng w1));
            w_trace := w_trace w1 ++ [Call_normal (kappa_ext a) (kappa_ext_sigma a)] |})
      else (Ok (lam, 0%float, gamma_ppn a), w1)
  | (Raise e, w1) => (Raise e, w1)
  end.
Proof.
  unfold draw_lens. fold (lambda_draw self a). unfold bind at 1.
  destruct (lambda_draw self a w) as [[lam|e] w1]; [|reflexivity].
  unfold_calls.
  destruct (_draw_kappa self); [destruct (_kappa_dist self) as [s|]|
                                destruct (_kappa_ext_bias self)]; try reflexivity.
  - destruct (draw_one s (w_rng w1)) as [[k|e] g]; reflexivity.
  - destruct (np_random_normal _ _ (w_rng w1)) as [[k|e] g]; reflexivity.
Qed.

End DrawLens.

(** C5.  After the lambda draw, the convergence is drawn by strict
    precedence: from the PDF sampler when a PDF is configured, and then
    [kappa_ext] and [kappa_ext_sigma] play no part; otherwise from a normal
    distribution with mean [kappa_ext] and standard deviation
    [kappa_ext_sigma] when [kappa_ext_bias] is on; otherwise it is [0] and
    nothing is drawn. *)
Theorem draw_lens_kappa_precedence {E : Externals} (self : LensLikelihood)
    (a : draw_lens_args) (w w1 : world) (lam : float) :
  lambda_draw self a w = (Ok lam, w1) ->
  (forall s, _draw_kappa self = true -> _kappa_dist self = Some s ->
     draw_lens self a w =
       (res_map (fun k => (lam, k, gamma_ppn a)) (fst (draw_one s (w_rng w1))),
        {| w_rng := snd (draw_one s (w_rng w1));
           w_trace := w_trace w1 ++ [Call_draw_one] |})
     /\ forall ke kes, draw_lens self (with_kappa_ext a ke kes) w = draw_lens self a w)
  /\ (_draw_kappa self = false -> _kappa_ext_bias self = true ->
     draw_lens self a w =
       (res_map (fun k => (lam, k, gamma_ppn a))
          (fst (np_random_normal (kappa_ext a) (kappa_ext_sigma a) (w_rng w1))),
        {| w_rng := snd (np_random_normal (kappa_ext a) (kappa_ext_sigma a) (w_rng w1));
           w_trace := w_trace w1 ++ [Call_normal (kappa_ext a) (kappa_ext_sigma a)] |}))
  /\ (_draw_kappa self = false -> _kappa_ext_bias self = false ->
     draw_lens self a w = (Ok (lam, 0%float, gamma_ppn a), w1)).
Proof.
  intros Hlam. split; [|split].
  - intros s Hk Hs. split.
    + rewrite draw_lens_unfold, Hlam, Hk, Hs. reflexivity.
    + intros ke kes. rewrite !draw_lens_unfold.
      change (lambda_draw self (with_kappa_ext a ke kes) w)
        with (lambda_draw self a w).
      rewrite Hk. reflexivity.
  - intros Hk Hb. rewrite draw_lens_unfold, Hlam, Hk, Hb. reflexivity.
  - intros Hk Hb. rewrite draw_lens_unfold, Hlam, Hk, Hb. reflexivity.
Qed.

Lemma draw_lens_kappa_precedence_witness :
  fst (draw_lens Scenario.lens_pdf Scenario.defaults Scenario.two_deviates)
    = Ok (1, 0.25, 1)%float
  /\ fst (draw_lens Scenario.lens2 Scenario.defaults Scenario.two_deviates)
    = Ok (1, 0, 1)%float.
Proof.
  split.
  - destruct (draw_lens_kappa_precedence Scenario.lens_pdf Scenario.defaults
                Scenario.two_deviates
                (snd (lambda_draw Scenario.lens_pdf Scenario.defaults Scenario.two_deviates))
                1%float ltac:(reflexivity)) as (H & _ & _).
    destruct (H _ eq_refl eq_refl) as [-> _]. reflexivity.
  - destruct (draw_lens_kappa_precedence Scenario.lens2 Scenario.defaults
                Scenario.two_deviates
                (snd (lambda_draw Scenario.lens2 Scenario.defaults Scenario.two_deviates))
                1%float ltac:(reflexivity)) as (_ & _ & H).
    rewrite (H eq_refl eq_refl). reflexivity.
Defined.

(** C6.  With [mst_ifu] on, the lambda draw is a normal draw with mean
    [lambda_ifu] and standard deviation [lambda_ifu_sigma], made first, and
    two calls of [draw_lens] that differ only in [lambda_mst] and
    [lambda_mst_sigma], from the same generator state, give the same
    result. *)
Theorem draw_lens_ifu_ignores_lambda_mst {E : Externals} (self : LensLikelihood)
    (a : draw_lens_args) (w : world) :
  _mst_ifu self = true ->
  lambda_draw self a w = normal (lambda_ifu a) (lambda_ifu_sigma a) w
  /\ (exists t, w_trace (snd (draw_lens self a w)) =
                w_trace w ++ Call_normal (lambda_ifu a) (lambda_ifu_sigma a) :: t)
  /\ (forall lam k g w', draw_lens self a w = (Ok (lam, k, g), w') ->
        fst (np_random_normal (lambda_ifu a) (lambda_ifu_sigma a) (w_rng w)) = Ok lam)
  /\ (forall lm lms, draw_lens self (with_lambda_mst a lm lms) w = draw_lens self a w).
Proof.
  intros Hifu.
  assert (Hl : lambda_draw self a w = normal (lambda_ifu a) (lambda_ifu_sigma a) w).
  { unfold lambda_draw. now rewrite Hifu. }
  split; [exact Hl|]. split; [|split].
  - rewrite draw_lens_unfold, Hl. unfold normal, call_rng.
    destruct (np_random_normal _ _ (w_rng w)) as [[lam|e] g]; simpl.
    2:{ now exists []. }
    destruct (_draw_kappa self); [destruct (_kappa_dist self)|
                                  destruct (_kappa_ext_bias self)]; simpl;
      rewrite <- ?app_assoc; eexists; first [reflexivity | idtac].
  - intros lam k g w'. rewrite draw_lens_unfold, Hl. unfold normal, call_rng.
    destruct (np_random_normal _ _ (w_rng w)) as [[lam'|e] g']; simpl;
      [|discriminate].
    destruct (_draw_kappa self); [destruct (_kappa_dist self)|
                                  destruct (_kappa_ext_bias self)]; simpl;
      intros H; try discriminate.
    + destruct (fst (draw_one s _)); simpl in H; now inversion H.
    + destruct (fst (np_random_normal _ _ _)); simpl in H; now inversion H.
    + now inversion H.
  - intros lm lms. rewrite !draw_lens_unfold.
    assert (Hl' : lambda_draw self (with_lambda_mst a lm lms) w = lambda_draw self a w).
    { unfold lambda_draw. now rewrite Hifu. }
    rewrite Hl'. reflexivity.
Qed.

Lemma draw_lens_ifu_ignores_lambda_mst_witness :
  draw_lens Scenario.lens_ifu (with_lambda_mst Scenario.defaults 7 3)
    Scenario.two_deviates
  = draw_lens Scenario.lens_ifu Scenario.defaults Scenario.two_deviates.
Proof.
  apply (draw_lens_ifu_ignores_lambda_mst Scenario.lens_ifu Scenario.defaults
           Scenario.two_deviates eq_refl).
Defined.

(** ** Distances *)

(** C7.  [angular_diameter_distances] asks the cosmology for the
    angular-diameter distance at the lens redshift, at the source redshift
    and between the two, in this order, and returns
    [ddt = (1 + z_lens) * D(z_lens) * D(z_source) / D(z_lens, z_source)] and
    [dd = D(z_lens)]. *)
Theorem angular_diameter_distances_formula {E : Externals} (self : LensLikelihood)
    (cosmo : cosmology) (w : world) (d_l d_s d_ls : float) :
  angular_diameter_distance cosmo (_z_lens self) = Ok d_l ->
  angular_diameter_distance cosmo (_z_source self) = Ok d_s ->
  angular_diameter_distance_z1z2 cosmo (_z_lens self) (_z_source self) = Ok d_ls ->
  angular_diameter_distances self cosmo w =
    (Ok (((1 + _z_lens self) * d_l * d_s / d_ls)%float, d_l),
     {| w_rng := w_rng w;
        w_trace := w_trace w ++
          [Call_angular_diameter_distance (_z_lens self);
           Call_angular_diameter_distance (_z_source self);
           Call_angular_diameter_distance_z1z2 (_z_lens self) (_z_source self)] |}).
Proof.
  intros Hl Hs Hls. unfold angular_diameter_distances. unfold_calls.
  rewrite Hl, Hs, Hls. simpl. now rewrite <- !app_assoc.
Qed.

Lemma angular_diameter_distances_formula_witness :
  fst (angular_diameter_distances Scenario.lens2 (Ref.hubble_law 4000)
         Scenario.two_deviates)
  = Ok ((1 + 0.5) * (4000 * 0.5 / 1.5) * (4000 * 2 / 3) / (4000 * 1.5 / 3),
        4000 * 0.5 / 1.5)%float.
Proof.
  rewrite (angular_diameter_distances_formula Scenario.lens2 (Ref.hubble_law 4000)
             Scenario.two_deviates _ _ _ eq_refl eq_refl eq_refl).
  reflexivity.
Defined.

(** ** The systematic-error override *)

Section Override.

Context {E : Externals}.
Variable self : LensLikelihood.



Lemma hyper_param_likelihood_unfold ddt dd kl kk w :
  hyper_param_likelihood self ddt dd kl kk w =
  let sv := kk !! "sigma_v_sys_error" in
  let kk' := delete "sigma_v_sys_error" kk in
  let rw := (if check_dist self kl kk' then sharp_path self ddt dd kl kk' sv
             else mc_path self ddt dd kl kk' sv) w in
  (fst rw, kk', snd rw).
Proof.
  unfold hyper_param_likelihood, dict_pop. simpl.
  destruct (check_dist self kl (delete "sigma_v_sys_error" kk));
    [destruct (sharp_path self ddt dd kl _ _ w)
    |destruct (mc_path self ddt dd kl _ _ w)]; reflexivity.
Qed.

End Override.



(** ** A draw count that is not positive *)

Lemma check_dist_pop {E : Externals} (self : LensLikelihood) (kl kk : kwargs) :
  check_dist self kl (delete "sigma_v_sys_error" kk) = check_dist self kl kk.
Proof.
  unfold check_dist, dict_get. now rewrite !lookup_delete_ne.
Qed.

Lemma init_stores_num_draws {E : Externals} (a : init_args) (self : LensLikelihood) :
  __init__ a = Ok self ->
  _num_distribution_draws self = a_num_distribution_draws a.
Proof.
  unfold __init__, bind_res. intros H.
  repeat destruct_match_hyp H; inversion H; reflexivity.
Qed.

(** C9.  With a draw count that is zero or negative and hyper-parameters
    that are not sharp, [hyper_param_likelihood] returns [-inf] whatever the
    other inputs: no collaborator is called and the generator is untouched.
    The constructor stores the draw count as given: if it accepts some
    arguments it accepts them with any other draw count. *)
Theorem nonpositive_draw_count_gives_neg_inf {E : Externals} (self : LensLikelihood)
    (ddt dd : float) (kwargs_lens kwargs_kin : kwargs) (w : world) :
  (_num_distribution_draws self <= 0)%Z ->
  check_dist self kwargs_lens kwargs_kin = false ->
  hyper_param_likelihood self ddt dd kwargs_lens kwargs_kin w =
    (Ok Np.neg_inf, delete "sigma_v_sys_error" kwargs_kin, w)
  /\ (forall (a : init_args) (n : Z) (s : LensLikelihood),
        __init__ a = Ok s ->
        exists s', __init__ (with_num_draws a n) = Ok s'
                   /\ _num_distribution_draws s' = n).
Proof.
  intros HN Hd. split.
  - rewrite hyper_param_likelihood_unfold. simpl.
    rewrite check_dist_pop, Hd. unfold mc_path, bind.
    replace (Z.to_nat (_num_distribution_draws self)) with 0%nat by lia.
    reflexivity.
  - intros a n s H.
    assert (H' : exists s', __init__ (with_num_draws a n) = Ok s').
    { revert H. unfold __init__, bind_res. simpl. intros H.
      repeat destruct_match_hyp H; try discriminate; eauto. }
    destruct H' as [s' Hs']. exists s'. split; [exact Hs'|].
    now rewrite (init_stores_num_draws _ _ Hs').
Qed.

Lemma nonpositive_draw_count_gives_neg_inf_witness :
  fst (fst (hyper_param_likelihood Scenario.lens_neg (-2) 1 Scenario.spread_lens
              Scenario.kin_with_override Scenario.two_draws))
  = Ok neg_infinity.
Proof.
  destruct (nonpositive_draw_count_gives_neg_inf Scenario.lens_neg (-2) 1
              Scenario.spread_lens Scenario.kin_with_override Scenario.two_draws
              ltac:(simpl; lia) ltac:(reflexivity)) as [-> _].
  reflexivity.
Defined.

(** ** A convergence PDF given by halves *)

Lemma init_without_pdf_or_edges {E : Externals} (a : init_args) :
  a_kappa_pdf a = None \/ a_kappa_bin_edges a = None ->
  __init__ a = __init__ (without_kappa_pdf a)
  /\ forall self, __init__ a = Ok self ->
       _draw_kappa self = false /\ _kappa_dist self = None
       /\ _kappa_ext_bias self = a_kappa_ext_bias a.
Proof.
  intros Hnone. unfold __init__, bind_res. simpl.
  destruct (TransformedCosmography_init _ _);
    [|split; [reflexivity | discriminate]].
  destruct (AnisotropyScalingIFU_init _ _);
    [|split; [reflexivity | discriminate]].
  destruct (LensLikelihoodBase_init _ _ _);
    [|split; [reflexivity | discriminate]].
  destruct (a_kappa_pdf a) as [pdf|], (a_kappa_bin_edges a) as [edges|];
    try (destruct Hnone; discriminate);
    (split; [reflexivity | intros self H; inversion H; auto]).
Qed.

(** C10.  When exactly one of [kappa_pdf] and [kappa_bin_edges] is given,
    the constructor behaves as if neither were: it raises nothing on that
    account, builds no sampler and leaves PDF sampling off, so that the
    convergence draw is the normal draw under [kappa_ext_bias] and [0]
    otherwise. *)
Theorem one_sided_kappa_pdf_is_dropped {E : Externals} (a : init_args) :
  (a_kappa_pdf a = None /\ a_kappa_bin_edges a <> None)
  \/ (a_kappa_pdf a <> None /\ a_kappa_bin_edges a = None) ->
  __init__ a = __init__ (without_kappa_pdf a)
  /\ forall self, __init__ a = Ok self ->
       _draw_kappa self = false /\ _kappa_dist self = None
       /\ forall (args : draw_lens_args) (w w1 : world) (lam : float),
            lambda_draw self args w = (Ok lam, w1) ->
            draw_lens self args w =
              if a_kappa_ext_bias a
              then (res_map (fun k => (lam, k, gamma_ppn args))
                      (fst (np_random_normal (kappa_ext args) (kappa_ext_sigma args)
                              (w_rng w1))),
                    {| w_rng := snd (np_random_normal (kappa_ext args)
                                       (kappa_ext_sigma args) (w_rng w1));
                       w_trace := w_trace w1 ++
                         [Call_normal (kappa_ext args) (kappa_ext_sigma args)] |})
              else (Ok (lam, 0%float, gamma_ppn args), w1).
Proof.
  intros Hone.
  assert (Hnone : a_kappa_pdf a = None \/ a_kappa_bin_edges a = None)
    by (destruct Hone as [[? _]|[_ ?]]; auto).
  destruct (init_without_pdf_or_edges a Hnone) as [Heq Hself].
  split; [exact Heq|].
  intros self Hinit. destruct (Hself self Hinit) as (Hk & Hd & Hb).
  repeat split; auto.
  intros args w w1 lam Hlam.
  rewrite draw_lens_unfold, Hlam, Hk, Hb. reflexivity.
Qed.

Lemma one_sided_kappa_pdf_is_dropped_witness :
  __init__ Scenario.init_pdf_only
    = __init__ (without_kappa_pdf Scenario.init_pdf_only)
  /\ res_map _draw_kappa (__init__ Scenario.init_pdf_only) = Ok false
  /\ res_map _kappa_dist (__init__ Scenario.init_pdf_only) = Ok None.
Proof.
  destruct (one_sided_kappa_pdf_is_dropped Scenario.init_pdf_only
              ltac:(right; split; [discriminate | reflexivity])) as [Heq H].
  split; [exact Heq|].
  destruct (H _ eq_refl) as (Hk & Hd & _).
  split; [exact (f_equal Ok Hk) | exact (f_equal Ok Hd)].
Defined.

(** ** When the result is minus infinity *)

Section NegInf.

Context {E : Externals}.

Lemma mc_sum_from_rejected (s0 : float) (logls : list float) :
  Forall (fun l => accepted (np_exp l) = false) logls ->
  mc_sum_from s0 logls = s0.
Proof.
  induction 1 as [|l ls Hl _ IH].
  - reflexivity.
  - now rewrite mc_sum_from_cons, Hl.
Qed.

Lemma mc_sum_from_positive (s0 : float) (logls : list float) :
  (0 <? s0)%float = true -> (0 <? mc_sum_from s0 logls)%float = true.
Proof.
  revert s0. induction logls as [|l ls IH]; intros s0 Hs0.
  - exact Hs0.
  - rewrite mc_sum_from_cons. apply IH.
    destruct (accepted (np_exp l)) eqn:Hacc; [|exact Hs0].
    apply andb_prop in Hacc. destruct Hacc as [Hfin Hpos].
    apply add_finite_positive; auto.
Qed.

(** The sum is not [<= 0] as soon as one draw is accepted. *)
Lemma mc_sum_nonpositive_iff (logls : list float) :
  (mc_sum logls <=? 0)%float = true <->
  Forall (fun l => accepted (np_exp l) = false) logls.
Proof.
  unfold mc_sum. split.
  - induction logls as [|l ls IH]; intros H; constructor.
    + destruct (accepted (np_exp l)) eqn:Hacc; [|reflexivity].
      rewrite mc_sum_from_cons, Hacc in H.
      apply andb_prop in Hacc. destruct Hacc as [Hfin Hpos].
      assert (Hs : (0 <? mc_sum_from (0 + np_exp l) ls)%float = true).
      { apply mc_sum_from_positive. apply add_finite_positive; auto. }
      apply ltb_0_not_leb in Hs. congruence.
    + apply IH. rewrite mc_sum_from_cons in H.
      destruct (accepted (np_exp l)) eqn:Hacc; [|exact H].
      apply andb_prop in Hacc. destruct Hacc as [Hfin Hpos].
      assert (Hs : (0 <? mc_sum_from (0 + np_exp l) ls)%float = true).
      { apply mc_sum_from_positive. apply add_finite_positive; auto. }
      apply ltb_0_not_leb in Hs. congruence.
  - intros Hrej. now rewrite (mc_sum_from_rejected _ _ Hrej).
Qed.

Lemma mc_sum_positive_iff (logls : list float) :
  (mc_sum logls <=? 0)%float = false <-> (0 <? mc_sum logls)%float = true.
Proof.
  split; [|apply ltb_0_not_leb].
  intros H. unfold mc_sum in *.
  assert (Hgen : forall ls s0, s0 = 0%float \/ (0 <? s0)%float = true ->
            mc_sum_from s0 ls = 0%float \/ (0 <? mc_sum_from s0 ls)%float = true).
  { induction ls as [|l ls IH]; intros s0 Hs0; [exact Hs0|].
    rewrite mc_sum_from_cons. apply IH.
    destruct (accepted (np_exp l)) eqn:Hacc; [|exact Hs0].
    apply andb_prop in Hacc. destruct Hacc as [Hfin Hpos].
    right. apply add_finite_positive; auto. }
  destruct (Hgen logls 0%float (or_introl eq_refl)) as [Hz | Hp]; [|exact Hp].
  rewrite Hz in H. discriminate.
Qed.

End NegInf.

(** C4, as the code has it.  On the Monte Carlo branch, when the draws
    complete: the accumulated sum is [<= 0] exactly when every draw was
    rejected, and it is then exactly [0]; in that case the value returned is
    [-inf], an ordinary result.  Otherwise the sum is positive and the
    value returned is [log (sum / N)], whatever that is. *)
Theorem mc_path_neg_inf_when_sum_nonpositive {E : Externals} (self : LensLikelihood)
    (ddt dd : float) (kwargs_lens kwargs_kin : kwargs) (sv : option float)
    (w w' : world) (logls : list float) :
  let N := _num_distribution_draws self in
  per_draw_logls self (Z.to_nat N) ddt dd kwargs_lens kwargs_kin sv w = (Ok logls, w') ->
  ((mc_sum logls <=? 0)%float = true <->
     Forall (fun l => accepted (np_exp l) = false) logls)
  /\ ((mc_sum logls <=? 0)%float = true ->
     mc_sum logls = 0%float
     /\ mc_path self ddt dd kwargs_lens kwargs_kin sv w = (Ok Np.neg_inf, w'))
  /\ ((mc_sum logls <=? 0)%float = false ->
     (0 <? mc_sum logls)%float = true
     /\ mc_path self ddt dd kwargs_lens kwargs_kin sv w =
         (Ok (np_log (mc_sum logls / Np.of_int N)%float), w')).
Proof.
  intros N H.
  assert (Hpath : mc_path self ddt dd kwargs_lens kwargs_kin sv w =
                  (Ok (mc_result self (mc_sum logls)), w')).
  { rewrite mc_path_refines. fold N. now rewrite H. }
  rewrite Hpath. unfold mc_result. fold N. split; [|split].
  - apply mc_sum_nonpositive_iff.
  - intros Hle. rewrite Hle. split; [|reflexivity].
    apply mc_sum_nonpositive_iff in Hle.
    unfold mc_sum. apply mc_sum_from_rejected, Hle.
  - intros Hgt. rewrite Hgt. split; [|reflexivity].
    now apply mc_sum_positive_iff.
Qed.

Lemma mc_path_neg_inf_when_sum_nonpositive_witness :
  fst (per_draw_logls Scenario.lens2 2 neg_infinity 1 Scenario.spread_lens ∅ None
         Scenario.two_draws)
    = Ok [neg_infinity; neg_infinity]
  /\ fst (mc_path Scenario.lens2 neg_infinity 1 Scenario.spread_lens ∅ None
            Scenario.two_draws)
    = Ok neg_infinity.
Proof.
  split; [reflexivity|].
  assert (H0 : per_draw_logls Scenario.lens2
                 (Z.to_nat (_num_distribution_draws Scenario.lens2)) neg_infinity 1
                 Scenario.spread_lens ∅ None Scenario.two_draws
               = (Ok [neg_infinity; neg_infinity],
                  snd (per_draw_logls Scenario.lens2 2 neg_infinity 1
                         Scenario.spread_lens ∅ None Scenario.two_draws))).
  { change (Z.to_nat (_num_distribution_draws Scenario.lens2)) with 2%nat.
    reflexivity. }
  destruct (mc_path_neg_inf_when_sum_nonpositive _ _ _ _ _ _ _ _ _ H0)
    as (Hiff & H & _).
  destruct H as [_ ->]; [|reflexivity].
  apply Hiff. repeat constructor.
Defined.

(** C4, as stated, fails.  Two draws with per-draw log-likelihoods [-744.5]
    and [-745244.5]: the first exponential is the smallest positive
    binary64 number and is accepted, the second is [0] and is rejected.
    The sum is positive, its half rounds to [0], and the value returned is
    [log 0 = -inf]. *)
Lemma mc_path_neg_inf_with_positive_sum :
  fst (per_draw_logls Scenario.lens2 2 (-744.5) 1 Scenario.spread_lens ∅ None
         Scenario.two_draws)
    = Ok [-744.5; -745244.5]%float
  /\ mc_sum (E := Scenario.E0) [-744.5; -745244.5]%float = 0x1p-1074%float
  /\ ~ (fst (mc_path Scenario.lens2 (-744.5) 1 Scenario.spread_lens ∅ None
               Scenario.two_draws) = Ok Np.neg_inf
        <-> (mc_sum (E := Scenario.E0) [-744.5; -745244.5] <=? 0)%float = true).
Proof.
  split; [reflexivity|]. split; [reflexivity|].
  intros [Hif _].
  assert (Hcontra : (mc_sum (E := Scenario.E0) [-744.5; -745244.5] <=? 0)%float = true)
    by (apply Hif; reflexivity).
  revert Hcontra. vm_compute. discriminate.
Qed.

(** ** The sharp branch against a single Monte Carlo draw *)


Section SharpVersusSingleDraw.

Context {E : Externals}.
Variable self : LensLikelihood.



End SharpVersusSingleDraw.




(** * Further properties of the class *)

(** ** The constructor *)

Section Constructor.

Context {E : Externals}.

(** What the parents are handed for the anisotropy-scaling arrays. *)
Lemma init_unfold (a : init_args) :
  __init__ a =
  bind_res (TransformedCosmography_init (a_z_lens a) (a_z_source a)) (fun _ =>
  bind_res (AnisotropyScalingIFU_init (a_likelihood a)
              (match a_ani_scaling_array_list a with
               | Some l => Some l
               | None => option_map (fun arr => [arr]) (a_ani_scaling_array a)
               end)) (fun _ =>
  bind_res (LensLikelihoodBase_init (a_z_lens a) (a_z_source a) (a_likelihood a)) (fun _ =>
  match a_kappa_pdf a, a_kappa_bin_edges a with
  | Some pdf, Some edges =>
      bind_res (PDFSampling edges pdf) (fun s =>
      Ok (@Build_LensLikelihood E (a_z_lens a) (a_z_source a)
            (a_num_distribution_draws a) (a_kappa_ext_bias a) (a_mst_ifu a)
            (Some s) true))
  | _, _ =>
      Ok (@Build_LensLikelihood E (a_z_lens a) (a_z_source a)
            (a_num_distribution_draws a) (a_kappa_ext_bias a) (a_mst_ifu a)
            None false)
  end))).
Proof.
  unfold __init__.
  destruct (a_ani_scaling_array_list a), (a_ani_scaling_array a); reflexivity.
Qed.

End Constructor.

(** X1.  When both the PDF and its bin edges are given and the parents'
    constructors succeed, the outcome is decided by [PDFSampling], called
    with the edges first: its sampler is stored and PDF sampling is switched
    on, the other attributes being those of the lens built without a PDF;
    its exception is the constructor's. *)
Theorem init_with_pdf_and_edges {E : Externals} (a : init_args)
    (pdf edges : list float) (s0 : LensLikelihood) :
  a_kappa_pdf a = Some pdf ->
  a_kappa_bin_edges a = Some edges ->
  __init__ (without_kappa_pdf a) = Ok s0 ->
  (forall s, PDFSampling edges pdf = Ok s ->
     exists self, __init__ a = Ok self
       /\ _draw_kappa self = true /\ _kappa_dist self = Some s
       /\ _kappa_ext_bias self = _kappa_ext_bias s0
       /\ _mst_ifu self = _mst_ifu s0
       /\ _num_distribution_draws self = _num_distribution_draws s0
       /\ _z_lens self = _z_lens s0 /\ _z_source self = _z_source s0)
  /\ (forall e, PDFSampling edges pdf = Raise e -> __init__ a = Raise e).
Proof.
  intros Hpdf Hedges H0. rewrite init_unfold in H0. rewrite init_unfold.
  simpl in H0. rewrite Hpdf, Hedges. unfold bind_res in *.
  destruct (TransformedCosmography_init _ _); [|discriminate].
  destruct (AnisotropyScalingIFU_init _ _); [|discriminate].
  destruct (LensLikelihoodBase_init _ _ _); [|discriminate].
  inversion H0; subst; clear H0. split.
  - intros s ->. eexists. split; [reflexivity|]. simpl. repeat split.
  - intros e ->. reflexivity.
Qed.

Lemma init_with_pdf_and_edges_witness :
  res_map _draw_kappa (__init__ Scenario.init_both) = Ok true
  /\ __init__ Scenario.init_malformed = Raise ValueError.
Proof.
  split.
  - destruct (init_with_pdf_and_edges Scenario.init_both [1]%float [0; 1]%float
                (@Build_LensLikelihood Scenario.E0 0.5 2 50 true false None false)
                eq_refl eq_refl) as [H _].
    + reflexivity.
    + destruct (H ([0; 1]%float, [1]%float) eq_refl) as (self & -> & Hk & _).
      simpl. now rewrite Hk.
  - destruct (init_with_pdf_and_edges Scenario.init_malformed [1]%float [0]%float
                (@Build_LensLikelihood Scenario.E0 0.5 2 50 true false None false)
                eq_refl eq_refl) as [_ H].
    + reflexivity.
    + exact (H ValueError eq_refl).
Defined.

(** X2.  Every lens the constructor returns has PDF sampling on exactly
    when it holds a sampler, which is exactly when both the PDF and its bin
    edges were given; so on such a lens the PDF branch of [draw_lens]
    always finds its sampler. *)
Theorem init_keeps_sampler_with_flag {E : Externals} (a : init_args)
    (self : LensLikelihood) :
  __init__ a = Ok self ->
  (_draw_kappa self = true <-> exists s, _kappa_dist self = Some s)
  /\ (_draw_kappa self = true <->
      exists pdf edges, a_kappa_pdf a = Some pdf /\ a_kappa_bin_edges a = Some edges)
  /\ (_draw_kappa self = true ->
      forall (args : draw_lens_args) (w w1 : world) (lam : float),
        lambda_draw self args w = (Ok lam, w1) ->
        exists s, _kappa_dist self = Some s
          /\ draw_lens self args w =
             (res_map (fun k => (lam, k, gamma_ppn args)) (fst (draw_one s (w_rng w1))),
              {| w_rng := snd (draw_one s (w_rng w1));
                 w_trace := w_trace w1 ++ [Call_draw_one] |})).
Proof.
  intros H. rewrite init_unfold in H. unfold bind_res in H.
  destruct (TransformedCosmography_init _ _); [|discriminate].
  destruct (AnisotropyScalingIFU_init _ _); [|discriminate].
  destruct (LensLikelihoodBase_init _ _ _); [|discriminate].
  destruct (a_kappa_pdf a) as [pdf|], (a_kappa_bin_edges a) as [edges|];
    try (destruct (PDFSampling edges pdf) as [s|e]; [|discriminate]);
    inversion H; subst; clear H; simpl.
  - split; [|split].
    + split; eauto.
    + split; eauto.
    + intros _ args w w1 lam Hlam. exists s. split; [reflexivity|].
      rewrite draw_lens_unfold, Hlam. reflexivity.
  - split; [|split]; try discriminate.
    + split; [discriminate | intros [s Hs]; discriminate].
    + split; [discriminate | intros (p & ed & _ & Hed); discriminate].
  - split; [|split]; try discriminate.
    + split; [discriminate | intros [s Hs]; discriminate].
    + split; [discriminate | intros (p & ed & Hp & _); discriminate].
  - split; [|split]; try discriminate.
    + split; [discriminate | intros [s Hs]; discriminate].
    + split; [discriminate | intros (p & ed & Hp & _); discriminate].
Qed.

Lemma init_keeps_sampler_with_flag_witness :
  exists s, _kappa_dist (@Build_LensLikelihood Scenario.E0 0.5 2 50 true false
                           (Some ([0; 1]%float, [1]%float)) true) = Some s.
Proof.
  apply (init_keeps_sampler_with_flag Scenario.init_both _ eq_refl).
  reflexivity.
Defined.

(** X3.  A single [ani_scaling_array] stands for the one-element list of
    it, and is looked at only when no list is given: with a list, whatever
    is passed as the single array changes nothing. *)
Theorem init_single_ani_scaling_array {E : Externals} (a : init_args)
    (arr : list float) (l : list (list float)) (other : option (list float)) :
  __init__ (with_ani_scaling a None (Some arr))
    = __init__ (with_ani_scaling a (Some [arr]) other)
  /\ __init__ (with_ani_scaling a (Some l) other)
    = __init__ (with_ani_scaling a (Some l) None).
Proof.
  split; rewrite !init_unfold; reflexivity.
Qed.


(** ** The sharp test reads four keys *)

(** X5.  [check_dist] consults [lambda_mst_sigma], [kappa_ext_sigma],
    [a_ani_sigma] and [beta_inf_sigma] and nothing else in the two
    dictionaries: setting or removing any other key, [lambda_ifu_sigma]
    included, leaves its answer unchanged. *)
Theorem check_dist_reads_four_sigmas {E : Externals} (self : LensLikelihood)
    (kwargs_lens kwargs_kin : kwargs) (k : string) (v : float) :
  k <> "lambda_mst_sigma" -> k <> "kappa_ext_sigma" ->
  k <> "a_ani_sigma" -> k <> "beta_inf_sigma" ->
  check_dist self (<[k := v]> kwargs_lens) kwargs_kin
    = check_dist self kwargs_lens kwargs_kin
  /\ check_dist self (delete k kwargs_lens) kwargs_kin
    = check_dist self kwargs_lens kwargs_kin
  /\ check_dist self kwargs_lens (<[k := v]> kwargs_kin)
    = check_dist self kwargs_lens kwargs_kin
  /\ check_dist self kwargs_lens (delete k kwargs_kin)
    = check_dist self kwargs_lens kwargs_kin.
Proof.
  intros H1 H2 H3 H4. unfold check_dist, dict_get.
  repeat split;
    rewrite ?lookup_insert_ne, ?lookup_delete_ne by congruence; reflexivity.
Qed.

Lemma check_dist_reads_four_sigmas_witness :
  check_dist Scenario.lens_ifu (<["lambda_ifu_sigma" := 1%float]> ∅) ∅
  = check_dist Scenario.lens_ifu ∅ ∅.
Proof.
  apply (check_dist_reads_four_sigmas Scenario.lens_ifu ∅ ∅ "lambda_ifu_sigma" 1);
    discriminate.
Defined.

(** ** More on [draw_lens] *)



(** X7.  Without a convergence PDF and with [kappa_ext_bias] off,
    [draw_lens] does not depend on [kappa_ext] and [kappa_ext_sigma]; when
    it returns, the convergence is [0] and the lambda draw is the only call
    that was made. *)
Theorem draw_lens_without_bias_ignores_kappa_ext {E : Externals}
    (self : LensLikelihood) (a : draw_lens_args) (w : world) :
  _draw_kappa self = false -> _kappa_ext_bias self = false ->
  (forall ke kes, draw_lens self (with_kappa_ext a ke kes) w = draw_lens self a w)
  /\ (forall lam k g w', draw_lens self a w = (Ok (lam, k, g), w') ->
        k = 0%float
        /\ exists loc scale, w_trace w' = w_trace w ++ [Call_normal loc scale]).
Proof.
  intros Hk Hb. split.
  - intros ke kes. rewrite !draw_lens_unfold.
    change (lambda_draw self (with_kappa_ext a ke kes) w) with (lambda_draw self a w).
    rewrite Hk, Hb. reflexivity.
  - intros lam k g w' H. rewrite draw_lens_unfold, Hk, Hb in H.
    unfold lambda_draw, normal, call_rng in H.
    destruct (_mst_ifu self);
      destruct (np_random_normal _ _ (w_rng w)) as [[lam'|e] g'];
      inversion H; subst; simpl; split; eauto.
Qed.

Lemma draw_lens_without_bias_ignores_kappa_ext_witness :
  draw_lens Scenario.lens2 (with_kappa_ext Scenario.defaults 0.5 0.25)
    Scenario.two_deviates
  = draw_lens Scenario.lens2 Scenario.defaults Scenario.two_deviates.
Proof.
  apply (draw_lens_without_bias_ignores_kappa_ext Scenario.lens2 Scenario.defaults
           Scenario.two_deviates eq_refl eq_refl).
Defined.

(** X8.  [gamma_ppn] goes through [draw_lens] untouched and takes no part
    in the draws: with another [gamma_ppn] the same draws are made, the
    generator is left in the same state, and only the third component of
    the result changes. *)
Theorem draw_lens_passes_gamma_ppn {E : Externals} (self : LensLikelihood)
    (a : draw_lens_args) (w : world) (g : float) :
  draw_lens self (with_gamma_ppn a g) w =
    (res_map (fun r => (fst (fst r), snd (fst r), g)) (fst (draw_lens self a w)),
     snd (draw_lens self a w))
  /\ forall lam k g' w', draw_lens self a w = (Ok (lam, k, g'), w') -> g' = gamma_ppn a.
Proof.
  rewrite !draw_lens_unfold.
  change (lambda_draw self (with_gamma_ppn a g) w) with (lambda_draw self a w).
  destruct (lambda_draw self a w) as [[lam|e] w1]; simpl.
  2:{ split; [reflexivity | discriminate]. }
  destruct (_draw_kappa self); [destruct (_kappa_dist self) as [s|]|
                                destruct (_kappa_ext_bias self)]; simpl.
  - destruct (fst (draw_one s (w_rng w1))); simpl;
      (split; [reflexivity | intros ? ? ? ? H; now inversion H]).
  - split; [reflexivity | discriminate].
  - destruct (fst (np_random_normal _ _ (w_rng w1))); simpl;
      (split; [reflexivity | intros ? ? ? ? H; now inversion H]).
  - split; [reflexivity | intros ? ? ? ? H; now inversion H].
Qed.

(** ** Keyword arguments of [draw_lens] *)

Lemma bind_draw_lens_check (kw : kwargs) :
  forallb (fun k => bool_decide (k ∈ draw_lens_names)) (elements (dom kw)) = true
  <-> ~ unexpected_keyword kw.
Proof.
  rewrite forallb_forall. unfold unexpected_keyword. split.
  - intros H (k & Hk & Hn). apply Hn.
    assert (Hin : In k (elements (dom kw))).
    { apply list_elem_of_In, elem_of_elements, elem_of_dom, Hk. }
    specialize (H k Hin). now apply bool_decide_eq_true in H.
  - intros H k Hin. apply bool_decide_eq_true.
    apply list_elem_of_In, elem_of_elements, elem_of_dom in Hin.
    destruct (decide (k ∈ draw_lens_names)) as [Hy|Hn]; [exact Hy|].
    exfalso. apply H. eauto.
Qed.




Lemma bind_draw_lens_unexpected (kw : kwargs) :
  unexpected_keyword kw -> bind_draw_lens kw = Raise TypeError.
Proof.
  intros Hu. unfold bind_draw_lens.
  destruct (forallb _ (elements (dom kw))) eqn:Hf; [|reflexivity].
  apply bind_draw_lens_check in Hf. contradiction.
Qed.

Lemma bind_draw_lens_expected (kw : kwargs) :
  ~ unexpected_keyword kw ->
  bind_draw_lens kw =
    Ok {| lambda_mst := dict_get "lambda_mst" 1 kw;
          lambda_mst_sigma := dict_get "lambda_mst_sigma" 0 kw;
          kappa_ext := dict_get "kappa_ext" 0 kw;
          kappa_ext_sigma := dict_get "kappa_ext_sigma" 0 kw;
          gamma_ppn := dict_get "gamma_ppn" 1 kw;
          lambda_ifu := dict_get "lambda_ifu" 1 kw;
          lambda_ifu_sigma := dict_get "lambda_ifu_sigma" 0 kw |}.
Proof.
  intros Hn. unfold bind_draw_lens.
  apply bind_draw_lens_check in Hn. now rewrite Hn.
Qed.

(** ** Errors and calls in [hyper_param_likelihood] *)

(** X10.  A keyword in [kwargs_lens] that [draw_lens] does not take makes
    [hyper_param_likelihood] raise [TypeError] at the first draw, on the
    sharp branch and on the Monte Carlo branch with at least one draw: no
    collaborator has been called, the generator is untouched, and
    [sigma_v_sys_error] has already been removed from the caller's
    dictionary. *)
Theorem unexpected_keyword_raises_before_any_call {E : Externals}
    (self : LensLikelihood) (ddt dd : float) (kwargs_lens kwargs_kin : kwargs)
    (w : world) :
  unexpected_keyword kwargs_lens ->
  check_dist self kwargs_lens kwargs_kin = true
    \/ (0 < _num_distribution_draws self)%Z ->
  hyper_param_likelihood self ddt dd kwargs_lens kwargs_kin w =
    (Raise TypeError, delete "sigma_v_sys_error" kwargs_kin, w).
Proof.
  intros Hu Hcase. rewrite hyper_param_likelihood_unfold. simpl.
  rewrite check_dist_pop.
  assert (Hd : draw_lens_kw self kwargs_lens w = (Raise TypeError, w)).
  { unfold draw_lens_kw. now rewrite (bind_draw_lens_unexpected _ Hu). }
  destruct (check_dist self kwargs_lens kwargs_kin) eqn:Hc.
  - assert (Hs : forall kk sv, sharp_path self ddt dd kwargs_lens kk sv w
                               = (Raise TypeError, w)).
    { intros kk sv. unfold sharp_path. unfold bind at 1. now rewrite Hd. }
    now rewrite Hs.
  - destruct Hcase as [Habs|HN]; [congruence|].
    assert (Hm : forall kk sv, mc_path self ddt dd kwargs_lens kk sv w
                               = (Raise TypeError, w)).
    { intros kk sv. unfold mc_path.
      destruct (Z.to_nat (_num_distribution_draws self)) as [|n] eqn:Hn; [lia|].
      simpl. unfold mc_draw, bind. now rewrite Hd. }
    now rewrite Hm.
Qed.

Lemma unexpected_keyword_raises_before_any_call_witness :
  hyper_param_likelihood Scenario.lens2 (-2) 1 Scenario.misspelt_lens
    Scenario.kin_with_override Scenario.two_draws
  = (Raise TypeError, delete "sigma_v_sys_error" Scenario.kin_with_override,
     Scenario.two_draws).
Proof.
  apply unexpected_keyword_raises_before_any_call.
  - exists "lambda_mst_sigm". split; [eexists; reflexivity|].
    unfold draw_lens_names. intros H.
    repeat (apply elem_of_cons in H; destruct H as [H|H]; [discriminate|]).
    now apply elem_of_nil in H.
  - left. vm_compute. reflexivity.
Defined.

Section SharpBranch.

Context {E : Externals}.
Variable self : LensLikelihood.

Lemma sharp_path_success ddt dd kl kk sv (w w' : world) (v : float) :
  sharp_path self ddt dd kl kk sv w = (Ok v, w') ->
  exists lam kap g w1 ddt_ dd_ a sc,
    w_trace w' = w_trace w1 ++
      [Call_displace_prediction ddt dd g lam kap; Call_draw_anisotropy kk;
       Call_ani_scaling a; Call_log_likelihood ddt_ dd_ sc sv]
    /\ draw_lens_kw self kl w = (Ok (lam, kap, g), w1)
    /\ displace_prediction ddt dd g lam kap = Ok (ddt_, dd_)
    /\ log_likelihood ddt_ dd_ sc sv = Ok v.
Proof.
  unfold sharp_path. unfold bind at 1. intros H.
  destruct (draw_lens_kw self kl w) as [[[[lam kap] gam]|e] w1]; [|discriminate].
  unfold_calls. simpl in *. crunch; try discriminate. simpl in *.
  crunch. simpl. rewrite <- !app_assoc. simpl.
  exists lam, kap, gam, w1. do 4 eexists.
  split; [reflexivity|]. split; [reflexivity|]. split; eassumption.
Qed.

Lemma draw_lens_first_call (a : draw_lens_args) (w : world) :
  exists t, w_trace (snd (draw_lens self a w)) =
    w_trace w ++
    Call_normal (if _mst_ifu self then lambda_ifu a else lambda_mst a)
                (if _mst_ifu self then lambda_ifu_sigma a else lambda_mst_sigma a)
    :: t.
Proof.
  rewrite draw_lens_unfold. unfold lambda_draw, normal, call_rng.
  destruct (_mst_ifu self);
    destruct (np_random_normal _ _ (w_rng w)) as [[lam|e] g]; simpl;
    try (now exists []);
    (destruct (_draw_kappa self); [destruct (_kappa_dist self)|
                                   destruct (_kappa_ext_bias self)]; simpl;
     rewrite <- ?app_assoc; eexists; reflexivity).
Qed.

Lemma sharp_path_after_draw ddt dd kl kk sv (w w' w1 : world) r r1 :
  sharp_path self ddt dd kl kk sv w = (r, w') ->
  draw_lens_kw self kl w = (r1, w1) ->
  exists t, w_trace w' = w_trace w1 ++ t.
Proof.
  unfold sharp_path. unfold bind at 1. intros H Hd. rewrite Hd in H.
  destruct r1 as [[[lam kap] gam]|e].
  2:{ inversion H; subst. exists []. now rewrite app_nil_r. }
  unfold_calls. simpl in *.
  crunch; simpl in *; crunch; simpl; rewrite <- ?app_assoc; eexists; reflexivity.
Qed.

End SharpBranch.

(** X11.  When the sharp branch returns, whatever the configured number of
    draws, the kernel has been called exactly once, as the last call, at
    the distances [displace_prediction] gave for the one draw of
    [draw_lens], with the [sigma_v_sys_error] that was in the dictionary;
    the value returned is the kernel's. *)
Theorem sharp_branch_calls_kernel_once {E : Externals} (self : LensLikelihood)
    (ddt dd : float) (kwargs_lens kwargs_kin kin_after : kwargs)
    (w w' : world) (v : float) :
  check_dist self kwargs_lens kwargs_kin = true ->
  hyper_param_likelihood self ddt dd kwargs_lens kwargs_kin w = (Ok v, kin_after, w') ->
  exists lam kap g t ddt_ dd_ sc,
    let sv := kwargs_kin !! "sigma_v_sys_error" in
    fst (draw_lens_kw self kwargs_lens w) = Ok (lam, kap, g)
    /\ displace_prediction ddt dd g lam kap = Ok (ddt_, dd_)
    /\ log_likelihood ddt_ dd_ sc sv = Ok v
    /\ w_trace w' = w_trace w ++ t ++ [Call_log_likelihood ddt_ dd_ sc sv]
    /\ kernel_calls t = 0%nat.
Proof.
  intros Hc H. rewrite hyper_param_likelihood_unfold in H. simpl in H.
  rewrite check_dist_pop, Hc in H.
  destruct (sharp_path self ddt dd kwargs_lens _ _ w) as [r1 w1'] eqn:Hs.
  simpl in H. inversion H; subst; clear H.
  destruct (sharp_path_success self _ _ _ _ _ _ _ _ Hs)
    as (lam & kap & g & w1 & ddt_ & dd_ & a & sc & Ht & Hd & Hdis & Hll).
  destruct (draw_lens_kw_trace self _ _ _ _ Hd) as (t0 & Ht0 & Hk0 & _).
  exists lam, kap, g,
    (t0 ++ [Call_displace_prediction ddt dd g lam kap;
            Call_draw_anisotropy (delete "sigma_v_sys_error" kwargs_kin);
            Call_ani_scaling a]),
    ddt_, dd_, sc. simpl.
  rewrite Hd. repeat split; auto.
  - rewrite Ht, Ht0. now rewrite <- !app_assoc.
  - rewrite kernel_calls_app, Hk0. reflexivity.
Qed.

Lemma sharp_branch_calls_kernel_once_witness :
  exists t ddt_ dd_ sc,
    w_trace (snd (hyper_param_likelihood Scenario.lens_neg (-2) 1 ∅
                    Scenario.kin_with_override Scenario.calm))
      = w_trace Scenario.calm ++ t ++
        [Call_log_likelihood ddt_ dd_ sc (Some 0.25%float)]
    /\ kernel_calls t = 0%nat.
Proof.
  assert (Hc : check_dist Scenario.lens_neg ∅ Scenario.kin_with_override = true)
    by (vm_compute; reflexivity).
  assert (H0 : hyper_param_likelihood Scenario.lens_neg (-2) 1 ∅
                 Scenario.kin_with_override Scenario.calm
               = (Ok (-2)%float,
                  delete "sigma_v_sys_error" Scenario.kin_with_override,
                  snd (hyper_param_likelihood Scenario.lens_neg (-2) 1 ∅
                         Scenario.kin_with_override Scenario.calm)))
    by reflexivity.
  destruct (sharp_branch_calls_kernel_once Scenario.lens_neg _ _ _ _ _ _ _ _ Hc H0)
    as (lam & kap & g & t & ddt_ & dd_ & sc & _ & _ & _ & Ht & Hk).
  exists t, ddt_, dd_, sc. split; [exact Ht | exact Hk].
Defined.

(** X12.  With [mst_ifu] on, the sharp branch draws lambda from a normal
    distribution whose standard deviation is [lambda_ifu_sigma], a key the
    sharp test never reads: the draw is the first call made, with the mean
    and spread found in the dictionary (or their defaults). *)
Theorem sharp_branch_draws_with_ifu_spread {E : Externals} (self : LensLikelihood)
    (ddt dd : float) (kwargs_lens kwargs_kin : kwargs) (w : world) :
  _mst_ifu self = true ->
  check_dist self kwargs_lens kwargs_kin = true ->
  ~ unexpected_keyword kwargs_lens ->
  exists t,
    w_trace (snd (hyper_param_likelihood self ddt dd kwargs_lens kwargs_kin w)) =
    w_trace w ++
    Call_normal (dict_get "lambda_ifu" 1 kwargs_lens)
                (dict_get "lambda_ifu_sigma" 0 kwargs_lens) :: t.
Proof.
  intros Hifu Hc Hn. rewrite hyper_param_likelihood_unfold. simpl.
  rewrite check_dist_pop, Hc.
  destruct (sharp_path_after_draw self ddt dd kwargs_lens
              (delete "sigma_v_sys_error" kwargs_kin)
              (kwargs_kin !! "sigma_v_sys_error") w _ _ _ _
              (surjective_pairing _) (surjective_pairing _)) as [t Ht].
  rewrite Ht. unfold draw_lens_kw. rewrite (bind_draw_lens_expected _ Hn).
  destruct (draw_lens_first_call self
              {| lambda_mst := dict_get "lambda_mst" 1 kwargs_lens;
                 lambda_mst_sigma := dict_get "lambda_mst_sigma" 0 kwargs_lens;
                 kappa_ext := dict_get "kappa_ext" 0 kwargs_lens;
                 kappa_ext_sigma := dict_get "kappa_ext_sigma" 0 kwargs_lens;
                 gamma_ppn := dict_get "gamma_ppn" 1 kwargs_lens;
                 lambda_ifu := dict_get "lambda_ifu" 1 kwargs_lens;
                 lambda_ifu_sigma := dict_get "lambda_ifu_sigma" 0 kwargs_lens |} w)
    as [t0 Ht0].
  rewrite Ht0, Hifu. simpl. exists (t0 ++ t). now rewrite <- app_assoc.
Qed.

Lemma sharp_branch_draws_with_ifu_spread_witness :
  (exists t,
     w_trace (snd (hyper_param_likelihood Scenario.lens_ifu (-2) 1
                     Scenario.ifu_spread ∅ Scenario.one_deviate)) =
     w_trace Scenario.one_deviate ++
     Call_normal (dict_get "lambda_ifu" 1 Scenario.ifu_spread)
                 (dict_get "lambda_ifu_sigma" 0 Scenario.ifu_spread) :: t)
  /\ fst (fst (hyper_param_likelihood Scenario.lens_ifu (-2) 1
                 Scenario.ifu_spread ∅ Scenario.one_deviate)) = Ok (-6)%float.
Proof.
  split; [|reflexivity].
  apply sharp_branch_draws_with_ifu_spread.
  - reflexivity.
  - vm_compute. reflexivity.
  - apply bind_draw_lens_check. vm_compute. reflexivity.
Defined.

(** ** The accumulated sum *)

Section Sum.

Context {E : Externals}.

Lemma mc_sum_from_zero_or_positive (logls : list float) :
  forall s0, s0 = 0%float \/ (0 <? s0)%float = true ->
    mc_sum_from s0 logls = 0%float \/ (0 <? mc_sum_from s0 logls)%float = true.
Proof.
  induction logls as [|l ls IH]; intros s0 Hs0; [exact Hs0|].
  rewrite mc_sum_from_cons. apply IH.
  destruct (accepted (np_exp l)) eqn:Hacc; [|exact Hs0].
  apply andb_prop in Hacc. destruct Hacc as [Hfin Hpos].
  right. apply add_finite_positive; auto.
Qed.

Lemma positive_not_nan (s : float) :
  (0 <? s)%float = true -> is_nan s = false /\ (s <? 0)%float = false.
Proof.
  intros H. apply ltb_0_iff in H. unfold is_nan.
  rewrite FloatAxioms.eqb_spec, ltb_spec.
  change (Prim2SF 0) with (S754_zero false).
  destruct (Prim2SF s) as [sg|sg| |sg m e]; try contradiction;
    destruct sg; try contradiction; simpl.
  - split; reflexivity.
  - unfold SFeqb, SFltb. simpl. rewrite Z.compare_refl.
    rewrite Pos.compare_cont_refl. split; reflexivity.
Qed.

End Sum.

(** X13.  Whatever the kernel and [exp] return for the draws (NaN and
    infinities included), the running sum with which the loop ends is never
    NaN and never negative: it is [0] or strictly positive, possibly plus
    infinity. *)
Theorem running_sum_is_zero_or_positive {E : Externals} (self : LensLikelihood)
    (n : nat) (ddt dd : float) (kwargs_lens kwargs_kin : kwargs)
    (sv : option float) (w w' : world) (likelihood : float) :
  mc_loop self n ddt dd kwargs_lens kwargs_kin sv 0%float w = (Ok likelihood, w') ->
  (likelihood = 0%float \/ (0 <? likelihood)%float = true)
  /\ is_nan likelihood = false
  /\ (likelihood <? 0)%float = false.
Proof.
  rewrite mc_loop_refines. intros H.
  destruct (per_draw_logls self n ddt dd kwargs_lens kwargs_kin sv w)
    as [[logls|e] w1]; inversion H; subst; clear H.
  assert (H : mc_sum_from 0 logls = 0%float
              \/ (0 <? mc_sum_from 0 logls)%float = true).
  { apply mc_sum_from_zero_or_positive. now left. }
  split; [exact H|].
  destruct H as [-> | H]; [split; reflexivity|].
  now apply positive_not_nan.
Qed.

Lemma running_sum_is_zero_or_positive_witness :
  is_nan (Libm.exp nan) = true
  /\ fst (mc_loop Scenario.lens2 2 nan 1 Scenario.spread_lens ∅ None 0
            Scenario.two_draws) = Ok 0%float.
Proof.
  split; [reflexivity|].
  assert (H0 : mc_loop Scenario.lens2 2 nan 1 Scenario.spread_lens ∅ None 0
                 Scenario.two_draws
               = (Ok 0%float,
                  snd (mc_loop Scenario.lens2 2 nan 1 Scenario.spread_lens ∅ None 0
                         Scenario.two_draws))) by reflexivity.
  destruct (running_sum_is_zero_or_positive _ _ _ _ _ _ _ _ _ _ H0) as (_ & _ & _).
  now rewrite H0.
Defined.

(** X14.  On the Monte Carlo branch the kernel is never called more often
    than the configured number of draws, and exactly that often when the
    call returns; an exception raised inside a draw ends the call and is
    what the call raises. *)
Theorem mc_branch_kernel_calls_bounded {E : Externals} (self : LensLikelihood)
    (ddt dd : float) (kwargs_lens kwargs_kin kin_after : kwargs)
    (w w' : world) (r : res float) :
  check_dist self kwargs_lens kwargs_kin = false ->
  hyper_param_likelihood self ddt dd kwargs_lens kwargs_kin w = (r, kin_after, w') ->
  let n := Z.to_nat (_num_distribution_draws self) in
  let draws := per_draw_logls self n ddt dd kwargs_lens kin_after
                 (kwargs_kin !! "sigma_v_sys_error") w in
  exists t, w_trace w' = w_trace w ++ t
    /\ (kernel_calls t <= n)%nat
    /\ (is_Ok r -> kernel_calls t = n /\ is_Ok (fst draws))
    /\ (forall e, r = Raise e -> fst draws = Raise e).
Proof.
  intros Hc H n draws. rewrite hyper_param_likelihood_unfold in H. simpl in H.
  rewrite check_dist_pop, Hc in H. rewrite mc_path_refines in H.
  fold n in H. inversion H as [[Hr Hk Hw]]. clear H. subst kin_after.
  fold draws in Hr, Hw. fold draws.
  destruct draws as [r0 w0] eqn:Hd. unfold draws in Hd.
  destruct (per_draw_logls_trace self _ _ _ _ _ _ _ _ _ Hd)
    as (t & Ht & _ & Hle & Hok).
  exists t. destruct r0 as [logls|e]; simpl in *; subst.
  - destruct (Hok _ eq_refl) as [_ Hn]. repeat split; auto. discriminate.
  - repeat split; auto; try contradiction. intros e0 He. now inversion He.
Qed.

Lemma mc_branch_kernel_calls_bounded_witness :
  fst (fst (hyper_param_likelihood Scenario.lens2 (-2) 1 Scenario.negative_spread
              ∅ Scenario.two_draws)) = Raise ValueError
  /\ fst (per_draw_logls Scenario.lens2 2 (-2) 1 Scenario.negative_spread
            (delete "sigma_v_sys_error" (∅ : kwargs))
            ((∅ : kwargs) !! "sigma_v_sys_error")
            Scenario.two_draws) = Raise ValueError.
Proof.
  split; [reflexivity|].
  assert (Hc : check_dist Scenario.lens2 Scenario.negative_spread ∅ = false)
    by (vm_compute; reflexivity).
  assert (H0 : hyper_param_likelihood Scenario.lens2 (-2) 1 Scenario.negative_spread
                 ∅ Scenario.two_draws
               = (Raise ValueError, delete "sigma_v_sys_error" ∅,
                  snd (hyper_param_likelihood Scenario.lens2 (-2) 1
                         Scenario.negative_spread ∅ Scenario.two_draws)))
    by reflexivity.
  destruct (mc_branch_kernel_calls_bounded Scenario.lens2 _ _ _ _ _ _ _ _ Hc H0)
    as (t & _ & _ & _ & H).
  exact (H ValueError eq_refl).
Defined.

(** ** From the cosmology to the likelihood *)

(** X15.  When the cosmology answers the three distance calls,
    [lens_log_likelihood] is [hyper_param_likelihood] at
    [ddt = (1 + z_lens) * D(z_lens) * D(z_source) / D(z_lens, z_source)] and
    [dd = D(z_lens)], run after those three calls: same result, same
    dictionary handed back, same later calls. *)
Theorem lens_log_likelihood_composes {E : Externals} (self : LensLikelihood)
    (cosmo : cosmology) (kwargs_lens kwargs_kin : kwargs) (w : world)
    (d_l d_s d_ls : float) :
  angular_diameter_distance cosmo (_z_lens self) = Ok d_l ->
  angular_diameter_distance cosmo (_z_source self) = Ok d_s ->
  angular_diameter_distance_z1z2 cosmo (_z_lens self) (_z_source self) = Ok d_ls ->
  lens_log_likelihood self cosmo kwargs_lens kwargs_kin w =
  hyper_param_likelihood self ((1 + _z_lens self) * d_l * d_s / d_ls)%float d_l
    kwargs_lens kwargs_kin
    {| w_rng := w_rng w;
       w_trace := w_trace w ++
         [Call_angular_diameter_distance (_z_lens self);
          Call_angular_diameter_distance (_z_source self);
          Call_angular_diameter_distance_z1z2 (_z_lens self) (_z_source self)] |}.
Proof.
  intros Hl Hs Hls. unfold lens_log_likelihood, angular_diameter_distances.
  unfold_calls. rewrite Hl, Hs, Hls. simpl. now rewrite <- !app_assoc.
Qed.

Lemma lens_log_likelihood_composes_witness :
  fst (fst (lens_log_likelihood Scenario.lens1 (Ref.hubble_law 4000) ∅
              Scenario.kin_with_override Scenario.calm))
  = Ok ((1 + 0.5) * (4000 * 0.5 / 1.5) * (4000 * 2 / 3) / (4000 * 1.5 / 3))%float.
Proof.
  rewrite (lens_log_likelihood_composes Scenario.lens1 (Ref.hubble_law 4000) ∅
             Scenario.kin_with_override Scenario.calm _ _ _ eq_refl eq_refl eq_refl).
  reflexivity.
Defined.

(** X16.  When the cosmology fails, [lens_log_likelihood] raises what it
    raised and stops there: the remaining distance calls are not made, no
    draw is made, the kernel is not called, and the caller's kinematic
    dictionary is handed back as it was, [sigma_v_sys_error] included. *)
Theorem lens_log_likelihood_without_distances {E : Externals}
    (self : LensLikelihood) (cosmo : cosmology) (kwargs_lens kwargs_kin : kwargs)
    (w : world) (e : exn) :
  let z_l := _z_lens self in
  let z_s := _z_source self in
  let after t := {| w_rng := w_rng w; w_trace := w_trace w ++ t |} in
  (angular_diameter_distance cosmo z_l = Raise e ->
     lens_log_likelihood self cosmo kwargs_lens kwargs_kin w =
       (Raise e, kwargs_kin, after [Call_angular_diameter_distance z_l]))
  /\ (forall d_l,
       angular_diameter_distance cosmo z_l = Ok d_l ->
       angular_diameter_distance cosmo z_s = Raise e ->
       lens_log_likelihood self cosmo kwargs_lens kwargs_kin w =
         (Raise e, kwargs_kin,
          after [Call_angular_diameter_distance z_l;
                 Call_angular_diameter_distance z_s]))
  /\ (forall d_l d_s,
       angular_diameter_distance cosmo z_l = Ok d_l ->
       angular_diameter_distance cosmo z_s = Ok d_s ->
       angular_diameter_distance_z1z2 cosmo z_l z_s = Raise e ->
       lens_log_likelihood self cosmo kwargs_lens kwargs_kin w =
         (Raise e, kwargs_kin,
          after [Call_angular_diameter_distance z_l;
                 Call_angular_diameter_distance z_s;
                 Call_angular_diameter_distance_z1z2 z_l z_s])).
Proof.
  intros z_l z_s after. unfold lens_log_likelihood, angular_diameter_distances.
  unfold_calls. fold z_l z_s. unfold after. split; [|split].
  - intros ->. reflexivity.
  - intros d_l -> Hs. simpl. rewrite Hs. simpl. now rewrite <- !app_assoc.
  - intros d_l d_s -> Hs Hls. simpl. rewrite Hs. simpl. rewrite Hls. simpl.
    now rewrite <- !app_assoc.
Qed.

Lemma lens_log_likelihood_without_distances_witness :
  lens_log_likelihood Scenario.lens1 Ref.no_distance ∅
    Scenario.kin_with_override Scenario.calm
  = (Raise ValueError, Scenario.kin_with_override,
     @Build_world Scenario.E0 [] [Call_angular_diameter_distance 0.5%float])
  /\ fst (lens_log_likelihood Scenario.lens1 Ref.no_pair_distance ∅
            Scenario.kin_with_override Scenario.calm)
  = (Raise OtherError, Scenario.kin_with_override).
Proof.
  split.
  - apply (lens_log_likelihood_without_distances Scenario.lens1 Ref.no_distance ∅
             Scenario.kin_with_override Scenario.calm ValueError).
    reflexivity.
  - destruct (lens_log_likelihood_without_distances Scenario.lens1
                Ref.no_pair_distance ∅ Scenario.kin_with_override Scenario.calm
                OtherError) as (_ & _ & H).
    rewrite (H _ _ eq_refl eq_refl eq_refl). reflexivity.
Defined.

(** ** What is taken from the random generator *)

Section Generator.

Context {E : Externals}.
Variable self : LensLikelihood.

Lemma generator_calls_app (t1 t2 : list event) :
  generator_calls (t1 ++ t2) = (generator_calls t1 + generator_calls t2)%nat.
Proof. unfold generator_calls. now rewrite filter_app, length_app. Qed.

Lemma draw_lens_generator_calls (a : draw_lens_args) (w w' : world) r :
  draw_lens self a w = (Ok r, w') ->
  exists t, w_trace w' = w_trace w ++ t /\ generator_calls t = (draws_per_lens self).
Proof.
  rewrite draw_lens_unfold. unfold lambda_draw, normal, call_rng, draws_per_lens.
  intros H.
  destruct (_mst_ifu self);
    destruct (np_random_normal _ _ (w_rng w)) as [[lam|e] g]; try discriminate;
    simpl in H;
    (destruct (_draw_kappa self); [destruct (_kappa_dist self) as [s|]|
                                   destruct (_kappa_ext_bias self)]);
    simpl in H; try discriminate; inversion H; subst; clear H; simpl;
    rewrite <- ?app_assoc; eexists; (split; [reflexivity|]); reflexivity.
Qed.

Lemma mc_draw_generator_calls ddt dd kl kk sv (w w' : world) (v : float) :
  mc_draw self ddt dd kl kk sv w = (Ok v, w') ->
  exists t, w_trace w' = w_trace w ++ t
            /\ generator_calls t = S (draws_per_lens self).
Proof.
  unfold mc_draw. unfold bind at 1. intros H.
  destruct (draw_lens_kw self kl w) as [[[[lam kap] gam]|e] w1] eqn:Hd;
    [|discriminate].
  unfold draw_lens_kw in Hd. destruct (bind_draw_lens kl) as [a|e]; [|discriminate].
  destruct (draw_lens_generator_calls _ _ _ _ Hd) as (t0 & Ht0 & Hg0).
  unfold_calls. simpl in *. crunch; try discriminate. simpl in *. crunch. simpl.
  rewrite Ht0, <- !app_assoc. eexists. split; [reflexivity|].
  rewrite generator_calls_app, Hg0. unfold generator_calls. simpl. lia.
Qed.

Lemma per_draw_logls_generator_calls (n : nat) ddt dd kl kk sv :
  forall (w w' : world) logls,
    per_draw_logls self n ddt dd kl kk sv w = (Ok logls, w') ->
    exists t, w_trace w' = w_trace w ++ t
              /\ generator_calls t = (n * S (draws_per_lens self))%nat.
Proof.
  induction n as [|n IH]; intros w w' logls H; simpl in H.
  - unfold ret in H. inversion H; subst. exists []. now rewrite app_nil_r.
  - unfold bind at 1 in H.
    destruct (mc_draw self ddt dd kl kk sv w) as [[v|e] w1] eqn:Hd; [|discriminate].
    unfold bind at 1 in H.
    destruct (per_draw_logls self n ddt dd kl kk sv w1) as [[ls|e] w2] eqn:Hp;
      [|discriminate].
    unfold ret in H. inversion H; subst; clear H.
    destruct (mc_draw_generator_calls _ _ _ _ _ _ _ _ Hd) as (t1 & Ht1 & Hg1).
    destruct (IH _ _ _ Hp) as (t2 & Ht2 & Hg2).
    exists (t1 ++ t2). split.
    + rewrite Ht2, Ht1. now rewrite app_assoc.
    + rewrite generator_calls_app, Hg1, Hg2. simpl. lia.
Qed.

Lemma sharp_path_generator_calls ddt dd kl kk sv (w w' : world) (v : float) :
  sharp_path self ddt dd kl kk sv w = (Ok v, w') ->
  exists t, w_trace w' = w_trace w ++ t
            /\ generator_calls t = S (draws_per_lens self).
Proof.
  intros H.
  destruct (sharp_path_success self _ _ _ _ _ _ _ _ H)
    as (lam & kap & g & w1 & ddt_ & dd_ & a & sc & Ht & Hd & _ & _).
  unfold draw_lens_kw in Hd. destruct (bind_draw_lens kl) as [args|e]; [|discriminate].
  destruct (draw_lens_generator_calls _ _ _ _ Hd) as (t0 & Ht0 & Hg0).
  rewrite Ht, Ht0, <- app_assoc. eexists. split; [reflexivity|].
  rewrite generator_calls_app, Hg0. unfold generator_calls. simpl. lia.
Qed.

End Generator.

(** X17.  A call of [draw_lens] that returns has taken one value from the
    generator for lambda, and a second one for the convergence exactly when
    a PDF is configured or [kappa_ext_bias] is on; a standard deviation of
    zero does not spare the draw. *)
Theorem draw_lens_consumes_generator {E : Externals} (self : LensLikelihood)
    (a : draw_lens_args) (w w' : world) (r : float * float * float) :
  draw_lens self a w = (Ok r, w') ->
  exists t, w_trace w' = w_trace w ++ t
    /\ generator_calls t =
       (if (_draw_kappa self || _kappa_ext_bias self)%bool then 2 else 1)%nat
    /\ kernel_calls t = 0%nat.
Proof.
  intros H.
  destruct (draw_lens_generator_calls self _ _ _ _ H) as (t & Ht & Hg).
  exists t. split; [exact Ht|]. split; [exact Hg|].
  assert (Hkw : exists t', w_trace w' = w_trace w ++ t' /\ kernel_calls t' = 0%nat).
  { revert H. rewrite draw_lens_unfold. unfold lambda_draw, normal, call_rng.
    intros H.
    destruct (_mst_ifu self);
      destruct (np_random_normal _ _ (w_rng w)) as [[lam|e] g]; try discriminate;
      simpl in H;
      (destruct (_draw_kappa self); [destruct (_kappa_dist self) as [s|]|
                                     destruct (_kappa_ext_bias self)]);
      simpl in H; try discriminate; inversion H; subst; clear H; simpl;
      rewrite <- ?app_assoc; eexists; (split; [reflexivity|]); reflexivity. }
  destruct Hkw as (t' & Ht' & Hk'). rewrite Ht in Ht'.
  apply app_inv_head in Ht'. now subst.
Qed.

Lemma draw_lens_consumes_generator_witness :
  exists t,
    w_trace (snd (draw_lens Scenario.lens_pdf Scenario.defaults Scenario.two_deviates))
      = w_trace Scenario.two_deviates ++ t
    /\ generator_calls t = 2%nat.
Proof.
  destruct (draw_lens_consumes_generator Scenario.lens_pdf Scenario.defaults
              Scenario.two_deviates
              (snd (draw_lens Scenario.lens_pdf Scenario.defaults Scenario.two_deviates))
              (1, 0.25, 1)%float ltac:(reflexivity)) as (t & Ht & Hg & _).
  exists t. split; [exact Ht | exact Hg].
Defined.

(** X18.  A call of [hyper_param_likelihood] that returns has taken from
    the generator one lens draw and one anisotropy draw per evaluation of
    the kernel: once on the sharp branch, even though every spread is zero,
    and once per configured draw on the Monte Carlo branch. *)
Theorem hyper_param_likelihood_consumes_generator {E : Externals}
    (self : LensLikelihood) (ddt dd : float) (kwargs_lens kwargs_kin kin_after : kwargs)
    (w w' : world) (v : float) :
  hyper_param_likelihood self ddt dd kwargs_lens kwargs_kin w = (Ok v, kin_after, w') ->
  let per_draw :=
    (if (_draw_kappa self || _kappa_ext_bias self)%bool then 3 else 2)%nat in
  exists t, w_trace w' = w_trace w ++ t
    /\ generator_calls t =
       if check_dist self kwargs_lens kwargs_kin then per_draw
       else (Z.to_nat (_num_distribution_draws self) * per_draw)%nat.
Proof.
  intros H per_draw. rewrite hyper_param_likelihood_unfold in H. simpl in H.
  rewrite check_dist_pop in H.
  assert (Hper : per_draw = S (draws_per_lens self)).
  { unfold per_draw, draws_per_lens.
    destruct (_draw_kappa self || _kappa_ext_bias self)%bool; reflexivity. }
  rewrite Hper.
  destruct (check_dist self kwargs_lens kwargs_kin).
  - destruct (sharp_path self ddt dd kwargs_lens _ _ w) as [r1 w1] eqn:Hs.
    simpl in H. inversion H; subst; clear H.
    exact (sharp_path_generator_calls self _ _ _ _ _ _ _ _ Hs).
  - rewrite mc_path_refines in H.
    destruct (per_draw_logls self _ ddt dd kwargs_lens _ _ w) as [[logls|e] w1] eqn:Hp;
      simpl in H; inversion H; subst; clear H.
    exact (per_draw_logls_generator_calls self _ _ _ _ _ _ _ _ _ Hp).
Qed.

Lemma hyper_param_likelihood_consumes_generator_witness :
  exists t,
    w_trace (snd (hyper_param_likelihood Scenario.lens2 (-2) 1 Scenario.spread_lens
                    Scenario.kin_with_override Scenario.two_draws))
      = w_trace Scenario.two_draws ++ t
    /\ generator_calls t = 4%nat.
Proof.
  assert (H0 : hyper_param_likelihood Scenario.lens2 (-2) 1 Scenario.spread_lens
                 Scenario.kin_with_override Scenario.two_draws
               = (Ok (Libm.log (Libm.exp (-2) / 2))%float,
                  delete "sigma_v_sys_error" Scenario.kin_with_override,
                  snd (hyper_param_likelihood Scenario.lens2 (-2) 1
                         Scenario.spread_lens Scenario.kin_with_override
                         Scenario.two_draws)))
    by reflexivity.
  destruct (hyper_param_likelihood_consumes_generator Scenario.lens2 _ _ _ _ _ _ _ _ H0)
    as (t & Ht & Hg).
  exists t. split; [exact Ht|]. rewrite Hg. vm_compute. reflexivity.
Defined.
